(** * h2-quiz: a timed, scored Hangman round in Rocq

    Shallow embedding of [src/h2-quiz.py].  The game keeps one mutable
    dictionary per round; here it is a record threaded through each
    function.  Files are a finite map from names to contents, the clock and
    the random generator are explicit inputs of a turn.

    Python [str] values are modelled by [string]; a character is a code
    point below 256, which covers every input the proofs look at. *)

From Stdlib Require Import ZArith QArith String Ascii DecimalString List Bool Lia.
From stdpp Require Import base gmap sets strings list.

Local Open Scope string_scope.
Local Open Scope Z_scope.

(** ** Python string primitives *)

Module PyStr.

Definition code (c : ascii) : N := N_of_ascii c.

Definition between (lo hi n : N) : bool := ((lo <=? n) && (n <=? hi))%N.

(** [str.isspace] on one code point: TAB..CR, FS..US, space, NEL, NBSP. *)
Definition isspace_c (c : ascii) : bool :=
  let n := code c in
  between 9 13 n || between 28 32 n || (n =? 133)%N || (n =? 160)%N.

Definition isupper_c (c : ascii) : bool :=
  let n := code c in
  between 65 90 n || between 192 214 n || between 216 222 n.

(** [str.isalpha] on one code point : the letter categories. *)
Definition isalpha_c (c : ascii) : bool :=
  let n := code c in
  between 65 90 n || between 97 122 n
  || (n =? 170)%N || (n =? 181)%N || (n =? 186)%N
  || between 192 214 n || between 216 246 n || between 248 255 n.

Definition isdigit_c (c : ascii) : bool := between 48 57 (code c).

Definition lower_c (c : ascii) : ascii :=
  if isupper_c c then ascii_of_N (code c + 32) else c.

Fixpoint lower (s : string) : string :=
  match s with
  | EmptyString => EmptyString
  | String c s' => String (lower_c c) (lower s')
  end.

Fixpoint lstrip (s : string) : string :=
  match s with
  | EmptyString => EmptyString
  | String c s' => if isspace_c c then lstrip s' else s
  end.

Fixpoint rstrip (s : string) : string :=
  match s with
  | EmptyString => EmptyString
  | String c s' =>
      match rstrip s' with
      | EmptyString => if isspace_c c then EmptyString else String c EmptyString
      | r => String c r
      end
  end.

Definition strip (s : string) : string := rstrip (lstrip s).

Fixpoint all_chars (p : ascii -> bool) (s : string) : bool :=
  match s with
  | EmptyString => true
  | String c s' => p c && all_chars p s'
  end.

(** [s.isalpha()]: at least one character and all of them alphabetic. *)
Definition isalpha (s : string) : bool :=
  match s with
  | EmptyString => false
  | _ => all_chars isalpha_c s
  end.

(** [g in w] on two strings: substring test. *)
Fixpoint contains (w g : string) : bool :=
  String.prefix g w
  || match w with
     | EmptyString => false
     | String _ w' => contains w' g
     end.

Definition endswith (s suffix : string) : bool :=
  let n := String.length s in
  let k := String.length suffix in
  (k <=? n)%nat && String.eqb (String.substring (n - k) k s) suffix.

(** [s.split(sep)] for a one-character separator. *)
Fixpoint split (sep : ascii) (s : string) : list string :=
  match s with
  | EmptyString => [EmptyString]
  | String c s' =>
      if Ascii.eqb c sep then EmptyString :: split sep s'
      else match split sep s' with
           | [] => [String c EmptyString]
           | h :: t => String c h :: t
           end
  end.

(** [sep.join(l)]. *)
Fixpoint join (sep : string) (l : list string) : string :=
  match l with
  | [] => EmptyString
  | [x] => x
  | x :: rest => x +:+ sep +:+ join sep rest
  end.

(** The characters of a string, each as a one-character string, as a
    [for l in s] loop sees them. *)
Fixpoint chars (s : string) : list string :=
  match s with
  | EmptyString => []
  | String c s' => String c EmptyString :: chars s'
  end.

Definition LF : ascii := ascii_of_N 10.
Definition CR : ascii := ascii_of_N 13.

(** Reading in text mode: CR LF and a lone CR both arrive as LF. *)
Fixpoint universal_newlines (s : string) : string :=
  match s with
  | EmptyString => EmptyString
  | String c s' =>
      if Ascii.eqb c CR then
        match s' with
        | String c' s'' =>
            if Ascii.eqb c' LF then String LF (universal_newlines s'')
            else String LF (universal_newlines s')
        | EmptyString => String LF EmptyString
        end
      else String c (universal_newlines s')
  end.

(** Iterating over an open text file: every line keeps its LF, a last
    line without one is still a line, the empty file has no line. *)
Fixpoint split_lines (s : string) : list string :=
  match s with
  | EmptyString => []
  | String c s' =>
      if Ascii.eqb c LF then String c EmptyString :: split_lines s'
      else match split_lines s' with
           | [] => [String c EmptyString]
           | h :: t => String c h :: t
           end
  end.

Definition file_lines (content : string) : list string :=
  split_lines (universal_newlines content).

(** [str(n)] for an integer. *)
Definition str_of_int (n : Z) : string :=
  DecimalString.NilZero.string_of_int (Z.to_int n).

(** The digits of an integer literal: decimal digits, single underscores
    allowed between two digits.  Returns the value and the digit count. *)
Fixpoint digits_value (s : string) (prev_us : bool) (acc : Z) (cnt : nat)
  : option (Z * nat) :=
  match s with
  | EmptyString => if prev_us then None else Some (acc, cnt)
  | String c s' =>
      if isdigit_c c then
        digits_value s' false (10 * acc + (Z.of_N (code c) - 48)) (S cnt)
      else if Ascii.eqb c "_"%char then
        if prev_us then None else digits_value s' true acc cnt
      else None
  end.

(** Longest digit string [int] converts (the interpreter's default). *)
Definition max_str_digits : nat := 4300.

Definition unsigned_value (s : string) : option Z :=
  match s with
  | EmptyString => None
  | String c _ =>
      if Ascii.eqb c "_"%char then None
      else match digits_value s false 0 0 with
           | Some (v, cnt) => if (cnt <=? max_str_digits)%nat then Some v else None
           | None => None
           end
  end.

(** [int(s)] in base ten; [None] stands for [ValueError]. *)
Definition int_of_str (s : string) : option Z :=
  match strip s with
  | String "-"%char r => option_map Z.opp (unsigned_value r)
  | String "+"%char r => unsigned_value r
  | r => unsigned_value r
  end.

End PyStr.

Import PyStr.

(** ** Constants *)

Definition MAX_SCORE : Z := 100.
Definition INITIAL_TIME : Z := 30.
Definition MAX_INCORRECT_GUESSES : Z := 10.
Definition HINT_THRESHOLD : Z := 3.
Definition CUSTOM_WORD_FILE : string := "custom_words.csv".

(** The three keys of the [DIFFICULTY_PARAMS] dictionary. *)
Inductive difficulty : Set := easy | medium | hard.

Definition difficulty_name (d : difficulty) : string :=
  match d with
  | easy => "easy"
  | medium => "medium"
  | hard => "hard"
  end.

Definition DIFFICULTY_PARAMS (d : difficulty) : nat * nat :=
  match d with
  | easy => (4, 5)
  | medium => (6, 7)
  | hard => (8, 20)
  end%nat.

(** ** Game state *)

Record game_state : Type := mk_state {
  word : string;
  guessed_letters : gset string;
  score : Z;
  time_left : Z;
  incorrect_guesses : Z;
  hint_used : bool
}.

Definition set_guessed_letters (s : game_state) (g : gset string) : game_state :=
  mk_state (word s) g (score s) (time_left s) (incorrect_guesses s) (hint_used s).
Definition set_score (s : game_state) (v : Z) : game_state :=
  mk_state (word s) (guessed_letters s) v (time_left s) (incorrect_guesses s) (hint_used s).
Definition set_time_left (s : game_state) (v : Z) : game_state :=
  mk_state (word s) (guessed_letters s) (score s) v (incorrect_guesses s) (hint_used s).
Definition set_incorrect_guesses (s : game_state) (v : Z) : game_state :=
  mk_state (word s) (guessed_letters s) (score s) (time_left s) v (hint_used s).
Definition set_hint_used (s : game_state) (b : bool) : game_state :=
  mk_state (word s) (guessed_letters s) (score s) (time_left s) (incorrect_guesses s) b.

(** [guessed] is the [guessed_letters] argument; the empty list also stands
    for the default [None]: both give the empty set. *)
Definition create_game_state (w : string) (guessed : list string)
    (sc tl : Z) : game_state :=
  {| word := lower w;
     guessed_letters := match guessed with
                        | [] => ∅
                        | _ => list_to_set guessed
                        end;
     score := sc;
     time_left := tl;
     incorrect_guesses := 0;
     hint_used := false |}.

(** [int(x)] on a float: the fractional part is dropped, towards zero.
    Finite floats are rationals. *)
Definition int_of_float (x : Q) : Z := Z.quot (Qnum x) (Z.pos (Qden x)).

Definition update_time (s : game_state) (elapsed : Q) : game_state * bool :=
  let s' := set_time_left s (time_left s - int_of_float elapsed) in
  (s', 0 <? time_left s').

Definition add_guess (s : game_state) (guess : string) : game_state * bool :=
  let s' := set_guessed_letters s ({[ guess ]} ∪ guessed_letters s) in
  (s', contains (word s') guess).

(** ** Files *)

(** Save files by name, and word lists by name as [csv.reader] yields
    their rows. *)
Abbreviation files := (gmap string string).
Abbreviation csv_files := (gmap string (list (list string))).

Definition load_word_list (csvs : csv_files) (filename : string) : list string :=
  match csvs !! filename with
  | None => []
  | Some rows =>
      flat_map (fun row =>
                  match row with
                  | [] => []
                  | cell :: _ => if isalpha (strip cell) then [lower cell] else []
                  end) rows
  end.

(** One character of [re.sub(r'[^a-zA-Z0-9\s\.]', "_", filename)]. *)
Definition sanitize_c (c : ascii) : ascii :=
  let n := code c in
  if between 97 122 n || between 65 90 n || between 48 57 n
     || isspace_c c || Ascii.eqb c "."%char
  then c else "_"%char.

Fixpoint sanitize (s : string) : string :=
  match s with
  | EmptyString => EmptyString
  | String c s' => String (sanitize_c c) (sanitize s')
  end.

Definition with_save_extension (filename : string) : string :=
  if endswith filename ".save" then filename else filename +:+ ".save".

Definition NL : string := String LF EmptyString.

(** The three lines [save_game_state] writes.  The set is written in the
    order [elements] lists it. *)
Definition save_text (s : game_state) : string :=
  (word s +:+ " " +:+ NL)
  +:+ (join "," (elements (guessed_letters s)) +:+ NL)
  +:+ (str_of_int (time_left s) +:+ NL).

(** The directory after [save_game_state] has written the file. *)
Definition save_game_state (fs : files) (filename : string) (s : game_state)
  : files :=
  let filename := with_save_extension (sanitize filename) in
  <[ filename := save_text s ]> fs.

(** [None] is the result of the [except] branch. *)
Definition load_game_state (fs : files) (filename : string) : option game_state :=
  let filename := with_save_extension filename in
  match fs !! filename with
  | None => None
  | Some content =>
      let lines := map strip (file_lines content) in
      match lines !! 0%nat, lines !! 1%nat, lines !! 2%nat, lines !! 3%nat with
      | Some l0, Some l1, Some l2, Some l3 =>
          match int_of_str l2, int_of_str l3 with
          | Some sc, Some tl =>
              Some (create_game_state l0
                      (match l1 with
                       | EmptyString => []
                       | _ => split "," l1
                       end) sc tl)
          | _, _ => None
          end
      | _, _, _, _ => None
      end
  end.

(** [random.choice] with the draw made explicit. *)
Definition random_choice {A : Type} (draw : nat) (l : list A) : option A :=
  l !! (draw mod length l)%nat.

Definition candidate_words (csvs : csv_files) (d : difficulty) : list string :=
  let '(min_len, max_len) := DIFFICULTY_PARAMS d in
  List.filter
    (fun w => (min_len <=? String.length w)%nat && (String.length w <=? max_len)%nat)
    (load_word_list csvs CUSTOM_WORD_FILE
     ++ load_word_list csvs (difficulty_name d +:+ "_words.csv")).

(** [new_game] once the difficulty prompt has been answered with [d]. *)
Definition new_game (csvs : csv_files) (d : difficulty) (draw : nat)
  : option game_state :=
  match candidate_words csvs d with
  | [] => None
  | words =>
      match random_choice draw words with
      | Some w => Some (create_game_state w [] MAX_SCORE INITIAL_TIME)
      | None => None
      end
  end.

(** ** One pass through the body of [game_loop] *)

(** What the player and the environment supply for one pass: the text
    typed at the prompt, the seconds the prompt was open, the file name
    typed after "save", and the draw of the hint's [random.choice]. *)
Record turn_input : Type := mk_input {
  typed : string;
  elapsed : Q;
  save_name : string;
  hint_draw : nat
}.

(** How a pass ends: the five [return]/[continue] points of the body and
    its fall-through to the next iteration, with the hinted letter if one
    was printed. *)
Inductive event : Type :=
| Saved
| TimeUp
| WordGuessed
| AlreadyGuessed
| WordCovered
| ScoreOut
| NextTurn (hint : option string).

Inductive round_status : Set := InProgress | Won | LostTime | LostScore | SavedExit.

Definition status_of (e : event) : round_status :=
  match e with
  | Saved => SavedExit
  | TimeUp => LostTime
  | WordGuessed | WordCovered => Won
  | ScoreOut => LostScore
  | AlreadyGuessed | NextTurn _ => InProgress
  end.

Definition terminal (e : event) : bool :=
  match status_of e with
  | InProgress => false
  | _ => true
  end.

Record turn_result : Type := mk_result {
  ev : event;
  st : game_state;
  disk : files
}.

Definition is_guessed (s : game_state) (l : string) : bool :=
  bool_decide (l ∈ guessed_letters s).

(** [all(l in state["guessed_letters"] for l in state["word"])]. *)
Definition word_covered (s : game_state) : bool :=
  forallb (is_guessed s) (chars (word s)).

(** [[l for l in state["word"] if l not in state["guessed_letters"]]]. *)
Definition missing_letters (s : game_state) : list string :=
  List.filter (fun l => negb (is_guessed s l)) (chars (word s)).

Definition single_letter (guess : string) : bool :=
  (String.length guess =? 1)%nat && isalpha guess.

(** The scoring block: both branches of [if not correct] charge ten
    points; the first lowers the counter, the second raises it. *)
Definition charge_guess (s : game_state) (correct : bool) : game_state :=
  if negb correct
  then set_score (set_incorrect_guesses s (incorrect_guesses s - 1)) (score s - 10)
  else set_score (set_incorrect_guesses s (incorrect_guesses s + 1)) (score s - 10).

(** The hint block that closes the loop body. *)
Definition maybe_hint (s : game_state) (draw : nat) : event * game_state :=
  if (HINT_THRESHOLD <=? incorrect_guesses s) && negb (hint_used s) then
    match missing_letters s with
    | [] => (NextTurn None, s)
    | missing => (NextTurn (random_choice draw missing), set_hint_used s true)
    end
  else (NextTurn None, s).

Definition game_turn (fs : files) (s : game_state) (i : turn_input) : turn_result :=
  let guess := lower (strip (typed i)) in
  if String.eqb guess "save" then
    mk_result Saved s (save_game_state fs (strip (save_name i)) s)
  else
    let '(s1, in_time) := update_time s (elapsed i) in
    if negb in_time then mk_result TimeUp s1 fs
    else if String.eqb guess (word s1) then mk_result WordGuessed s1 fs
    else if single_letter guess && is_guessed s1 guess then
      mk_result AlreadyGuessed s1 fs
    else
      let '(s2, correct) := add_guess s1 guess in
      let s3 := charge_guess s2 correct in
      if word_covered s3 then mk_result WordCovered s3 fs
      else if score s3 <=? 0 then mk_result ScoreOut s3 fs
      else
        let '(e, s4) := maybe_hint s3 (hint_draw i) in
        mk_result e s4 fs.

(** [game_loop] over the inputs that are typed: the passes made, in order,
    up to the [return] or to the end of the inputs. *)
Fixpoint game_loop (fs : files) (s : game_state) (inputs : list turn_input)
  : list event * game_state * files :=
  match inputs with
  | [] => ([], s, fs)
  | i :: rest =>
      let r := game_turn fs s i in
      if terminal (ev r) then ([ev r], st r, disk r)
      else
        let '(es, s', fs') := game_loop (disk r) (st r) rest in
        (ev r :: es, s', fs')
  end.

Definition final_event (run : list event * game_state * files) : option event :=
  last (run.1.1).
Definition final_state (run : list event * game_state * files) : game_state :=
  run.1.2.

(** A pass on which the player types [g] after [t] whole seconds. *)
Definition guess_after (g : string) (t : Z) : turn_input :=
  mk_input g (inject_Z t) "" 0.
Definition guess_now (g : string) : turn_input := guess_after g 0.

(** ** Prompts, menus and the custom word list *)

(** How a prompt that is repeated until the answer is valid ends: with an
    accepted answer and the answers not read yet, with an exception raised
    by the validator, or still waiting when the answers have run out. *)
Inductive prompt_result (A : Type) : Type :=
| Answered (a : A) (rest : list string)
| Raised
| OutOfInput.

Arguments Answered {A} a rest.
Arguments Raised {A}.
Arguments OutOfInput {A}.

(** [get_valid_input]; a validator returns [None] when it raises. *)
Fixpoint get_valid_input (validator : string -> option bool)
    (answers : list string) : prompt_result string :=
  match answers with
  | [] => OutOfInput
  | a :: rest =>
      let response := lower (strip a) in
      match validator response with
      | None => Raised
      | Some true => Answered response rest
      | Some false => get_valid_input validator rest
      end
  end.

(** [lambda x: x in {"y", "n"}]. *)
Definition yes_or_no (x : string) : option bool :=
  Some (String.eqb x "y" || String.eqb x "n").

Definition difficulty_of_name (x : string) : option difficulty :=
  if String.eqb x "easy" then Some easy
  else if String.eqb x "medium" then Some medium
  else if String.eqb x "hard" then Some hard
  else None.

(** [lambda d: d in DIFFICULTY_PARAMS]. *)
Definition is_difficulty (x : string) : option bool :=
  Some (match difficulty_of_name x with
        | Some _ => true
        | None => false
        end).

(** [str.isdigit] on one code point: the decimal digits and the
    superscripts one, two and three. *)
Definition isdigit_any_c (c : ascii) : bool :=
  let n := code c in
  between 48 57 n || (n =? 178)%N || (n =? 179)%N || (n =? 185)%N.

Definition str_isdigit (s : string) : bool :=
  match s with
  | EmptyString => false
  | _ => all_chars isdigit_any_c s
  end.

(** [lambda x: x.isdigit() and 0 <= int(x) <= len(save_files)], with [n]
    the number of save files; [int] raises on what it cannot convert. *)
Definition valid_choice (n : nat) (x : string) : option bool :=
  if str_isdigit x then
    match int_of_str x with
    | Some v => Some ((0 <=? v) && (v <=? Z.of_nat n))
    | None => None
    end
  else Some false.

(** [new_game] with its difficulty prompt. *)
Definition new_game_asked (csvs : csv_files) (answers : list string) (draw : nat)
  : prompt_result (option game_state) :=
  match get_valid_input is_difficulty answers with
  | Answered name rest =>
      match difficulty_of_name name with
      | Some d => Answered (new_game csvs d draw) rest
      | None => Raised
      end
  | Raised => Raised
  | OutOfInput => OutOfInput
  end.

(** The working directory holds the save files; the order in which
    [os.listdir] gives them is the order of [elements]. *)
Definition list_save_files (fs : files) : list string :=
  List.filter (fun file => endswith file ".save") (elements (dom fs)).

(** What the body of the loop of [hangman] has decided when it reaches
    the call of [game_loop]: back to the main menu after choice 0, back
    because no state could be made, or a round to play. *)
Inductive start : Type :=
| ToMenu
| NoWords
| Play (s : game_state).

Definition start_of (state : option game_state) : start :=
  match state with
  | Some s => Play s
  | None => NoWords
  end.

(** The body of the loop of [hangman] up to the call of [game_loop]. *)
Definition hangman_start (fs : files) (csvs : csv_files)
    (answers : list string) (draw : nat) : prompt_result start :=
  match get_valid_input yes_or_no answers with
  | Answered yn rest =>
      if String.eqb yn "y" then
        let save_files := list_save_files fs in
        let before_choice :=
          match save_files with
          | [] => match new_game_asked csvs rest draw with
                  | Answered _ rest' => Answered tt rest'
                  | Raised => Raised
                  | OutOfInput => OutOfInput
                  end
          | _ => Answered tt rest
          end in
        match before_choice with
        | Answered _ rest1 =>
            match get_valid_input (valid_choice (length save_files)) rest1 with
            | Answered choice rest2 =>
                match int_of_str choice with
                | Some 0 => Answered ToMenu rest2
                | Some c =>
                    match save_files !! (Z.to_nat (c - 1)) with
                    | Some filename =>
                        match load_game_state fs filename with
                        | Some s => Answered (Play s) rest2
                        | None =>
                            match new_game_asked csvs rest2 draw with
                            | Answered state rest3 => Answered (start_of state) rest3
                            | Raised => Raised
                            | OutOfInput => OutOfInput
                            end
                        end
                    | None => Raised
                    end
                | None => Raised
                end
            | Raised => Raised
            | OutOfInput => OutOfInput
            end
        | Raised => Raised
        | OutOfInput => OutOfInput
        end
      else
        match new_game_asked csvs rest draw with
        | Answered state rest' => Answered (start_of state) rest'
        | Raised => Raised
        | OutOfInput => OutOfInput
        end
  | Raised => Raised
  | OutOfInput => OutOfInput
  end.

(** Word lists are kept as the rows [csv.reader] yields.  On a file that
    is complete, that is empty or ended by a line break outside quotes,
    [csv.writer(file).writerow([word])] adds the row [[word]]. *)
Definition append_row (csvs : csv_files) (filename : string) (row : list string)
  : csv_files :=
  <[ filename := (default [] (csvs !! filename) ++ [row])%list ]> csvs.

(** What the file system and the text of the custom word file decide
    while [add_custom_words] runs: whether the file, if it exists, is
    complete; for a file that is not, the rows read back once the words
    [ws] and their line breaks have been appended, glued to the text of
    the last row, and whether the file is complete after them; whether the
    missing file can be created; and, on the pass for the [k]-th answer,
    whether the file can be read and whether it can be appended to. *)
Record word_file_env : Type := mk_word_file_env {
  file_complete : bool;
  glued_rows : list string -> list (list string);
  glued_complete : list string -> bool;
  can_create : bool;
  can_read : nat -> bool;
  can_append : nat -> bool
}.

(** [load_word_list(CUSTOM_WORD_FILE)] on the pass for the [k]-th answer;
    a file that cannot be read gives the empty list. *)
Definition existing_words (env : word_file_env) (k : nat) (csvs : csv_files)
  : list string :=
  if can_read env k then load_word_list csvs CUSTOM_WORD_FILE else [].

(** The rows of the custom word file after a successful
    [csv.writer(file).writerow([word])].  [pending] is [None] for a
    complete file, and otherwise holds the words appended so far to the
    file that is not. *)
Definition write_row (env : word_file_env) (pending : option (list string))
    (csvs : csv_files) (w : string) : csv_files * option (list string) :=
  match pending with
  | None => (append_row csvs CUSTOM_WORD_FILE [w], None)
  | Some ws =>
      let ws' := (ws ++ [w])%list in
      (<[ CUSTOM_WORD_FILE := glued_rows env ws' ]> csvs,
       if glued_complete env ws' then None else Some ws')
  end.

(** The loop of [add_custom_words] over the answers typed, from the
    [k]-th on; the flag tells whether "done" was reached.  A write that
    fails leaves the file as it was. *)
Fixpoint add_words (env : word_file_env) (pending : option (list string))
    (k : nat) (csvs : csv_files) (answers : list string) : csv_files * bool :=
  match answers with
  | [] => (csvs, false)
  | a :: rest =>
      let w := strip (lower a) in
      if String.eqb w "done" then (csvs, true)
      else if negb (isalpha w) then add_words env pending (S k) csvs rest
      else if (String.length w <? 4)%nat || (20 <? String.length w)%nat
      then add_words env pending (S k) csvs rest
      else if bool_decide (w ∈ existing_words env k csvs)
      then add_words env pending (S k) csvs rest
      else if can_append env k
      then add_words env (write_row env pending csvs w).2 (S k)
             (write_row env pending csvs w).1 rest
      else add_words env pending (S k) csvs rest
  end.

(** [add_custom_words]; [None] when creating the missing file raises. *)
Definition add_custom_words (env : word_file_env) (csvs : csv_files)
    (answers : list string) : option (csv_files * bool) :=
  match csvs !! CUSTOM_WORD_FILE with
  | Some _ =>
      Some (add_words env (if file_complete env then None else Some []) 0
              csvs answers)
  | None =>
      if can_create env
      then Some (add_words env None 0 (<[ CUSTOM_WORD_FILE := [] ]> csvs) answers)
      else None
  end.

(** ** Runs and the inputs of the properties *)

(** The guess typed on a pass, as the loop body compares it. *)
Definition guess_of (i : turn_input) : string := lower (strip (typed i)).

(** What is asked of the inputs of a run of wrong guesses on [s]: no
    time passes, no guess is the save command or part of the word, and a
    single letter is typed once only and was not guessed before, so that
    every guess is recorded and charged. *)
Definition wrong_guesses (s : game_state) (inputs : list turn_input) : Prop :=
  Forall (fun i => int_of_float (elapsed i) = 0) inputs
  /\ Forall (fun g => g <> "save" /\ contains (word s) g = false
                      /\ (single_letter g = true -> g ∉ guessed_letters s))
       (map guess_of inputs)
  /\ NoDup (List.filter single_letter (map guess_of inputs)).

(** The passes that went through the scoring block. *)
Definition charged (e : event) : bool :=
  match e with
  | WordCovered | ScoreOut | NextTurn _ => true
  | Saved | TimeUp | WordGuessed | AlreadyGuessed => false
  end.

(** The seconds a pass takes off the clock: none when "save" is typed. *)
Definition seconds_charged (i : turn_input) : Z :=
  if String.eqb (guess_of i) "save" then 0 else int_of_float (elapsed i).

(** The letters hinted during a run, in order. *)
Definition hints (es : list event) : list string :=
  omap (fun e => match e with
                 | NextTurn (Some l) => Some l
                 | _ => None
                 end) es.

(** No line break inside: neither LF nor CR. *)
Definition no_break (s : string) : bool :=
  all_chars (fun c => negb (Ascii.eqb c LF) && negb (Ascii.eqb c CR)) s.


Definition nonspace_c (c : ascii) : bool := negb (isspace_c c).

(** What [add_custom_words] asks of a word before writing it. *)
Definition accepted_word (w : string) : Prop :=
  isalpha w = true
  /\ lower w = w
  /\ (4 <= String.length w <= 20)%nat
  /\ w <> "done".

(** The three lines [save_game_state] writes for a word, the guessed
    letters in the order the set happens to yield them, and a time. *)
Definition three_line_save (w : string) (guesses : list string) (t : Z) : string :=
  (w +:+ " ")
  +:+ String LF (join "," guesses
                 +:+ String LF (str_of_int t +:+ String LF EmptyString)).

(** A file as [save_game_state] writes it, whatever the order of the
    guessed letters, from a word and guesses that hold no line break. *)
Definition written_by_save (content : string) : Prop :=
  exists w guesses t,
    content = three_line_save w guesses t
    /\ no_break w = true
    /\ Forall (fun g => no_break g = true) guesses.

(** ** States and inputs of the scenarios *)

Definition fresh_round (w : string) : game_state :=
  create_game_state w [] MAX_SCORE INITIAL_TIME.

Definition ten_wrong_guesses : list turn_input :=
  map guess_now ["b"; "zz"; "zz"; "d"; "e"; "f"; "g"; "h"; "i"; "j"].

(** The round of "planet" after the letters "p" and "l". *)
Definition planet_after_two : game_state :=
  final_state (game_loop ∅ (fresh_round "planet") (map guess_now ["p"; "l"])).

(** Two word lists; the second entry of the custom list has a blank on
    either side. *)
Definition example_word_lists : csv_files :=
  {[ "custom_words.csv" := [["Tree"]; [" cat "]; ["a b"]; []];
     "easy_words.csv" := [["word"]; ["toolongword"]] ]}.

(** A custom word file that is complete, on a file system where every
    read succeeds and the append for the third answer fails. *)
Definition example_env : word_file_env :=
  mk_word_file_env true (fun _ => []) (fun _ => true) true (fun _ => true)
    (fun k => negb (k =? 2)%nat).

(** The answer made of the one character SUPERSCRIPT TWO. *)
Definition superscript_two : string := String (ascii_of_N 178) EmptyString.

(** A four-line file as [load_game_state] expects it. *)
Definition four_line_save : string :=
  "Cat" +:+ NL +:+ "a,x" +:+ NL +:+ "70" +:+ NL +:+ "12" +:+ NL.

Definition loaded_example : game_state :=
  create_game_state "Cat" ["a"; "x"] 70 12.

Definition saved_example : game_state :=
  mk_state "cat" {[ "c" ]} 90 25 1 false.

(** A directory with one game saved by [save_game_state]. *)
Definition one_saved_game : files := save_game_state ∅ "slot" saved_example.

(** * Properties *)

(** ** Strings *)

Section StringFacts.

Lemma lower_c_idem (c : ascii) : lower_c (lower_c c) = lower_c c.
Proof. destruct c as [[] [] [] [] [] [] [] []]; vm_compute; reflexivity. Qed.

Lemma lower_idem (s : string) : lower (lower s) = lower s.
Proof.
  induction s as [|c s IH]; simpl; [reflexivity|].
  now rewrite lower_c_idem, IH.
Qed.

Lemma prefix_one (c : ascii) (w : string) :
  String.prefix (String c EmptyString) (String c w) = true.
Proof. simpl. destruct (ascii_dec c c); [now destruct w | congruence]. Qed.

(** A character of the word, taken as a guess, is found in the word. *)
Lemma chars_contains (w l : string) : l ∈ chars w -> contains w l = true.
Proof.
  induction w as [|c w IH]; simpl chars; intros Hin.
  - inversion Hin.
  - apply elem_of_cons in Hin as [-> | Hin].
    + cbn [contains]. now rewrite prefix_one.
    + cbn [contains]. rewrite (IH Hin). apply orb_true_r.
Qed.

End StringFacts.

(** ** Creating and loading states *)

Section Loading.

Lemma create_game_state_counters w guessed sc tl :
  incorrect_guesses (create_game_state w guessed sc tl) = 0
  /\ hint_used (create_game_state w guessed sc tl) = false.
Proof. split; reflexivity. Qed.

Lemma load_game_state_created fs filename s :
  load_game_state fs filename = Some s ->
  exists w guessed sc tl, s = create_game_state w guessed sc tl.
Proof.
  unfold load_game_state. intros H.
  repeat case_match; try discriminate;
    injection H as <-; eauto.
Qed.

(** C10. Whatever file [load_game_state] manages to read, the state it
    returns has [incorrect_guesses = 0] and [hint_used = False]: both
    are set by [create_game_state] and neither is read from the file. *)
Theorem load_resets_counters fs filename s :
  load_game_state fs filename = Some s ->
  incorrect_guesses s = 0 /\ hint_used s = false.
Proof.
  intros H. apply load_game_state_created in H as (w & g & sc & tl & ->).
  apply create_game_state_counters.
Qed.

Lemma load_resets_counters_witness :
  load_game_state {[ "slot.save" := four_line_save ]} "slot" = Some loaded_example
  /\ incorrect_guesses loaded_example = 0
  /\ hint_used loaded_example = false.
Proof.
  assert (H : load_game_state {[ "slot.save" := four_line_save ]} "slot"
              = Some loaded_example) by (vm_compute; reflexivity).
  split; [exact H|].
  exact (load_resets_counters _ _ _ H).
Defined.

End Loading.

(** ** Choosing a word *)

Section WordSource.

Context (csvs : csv_files).

Lemma load_word_list_lower filename w :
  w ∈ load_word_list csvs filename -> lower w = w.
Proof.
  unfold load_word_list. destruct (csvs !! filename) as [rows|].
  - rewrite list_elem_of_In, in_flat_map. intros (row & _ & Hw).
    destruct row as [|cell ?]; [destruct Hw|].
    destruct (isalpha (strip cell)); [|destruct Hw].
    destruct Hw as [<- | []]. apply lower_idem.
  - intros H. inversion H.
Qed.

Lemma random_choice_elem {A : Type} (draw : nat) (l : list A) :
  l <> [] -> exists x, random_choice draw l = Some x /\ x ∈ l.
Proof.
  intros Hne. unfold random_choice.
  destruct (lookup_lt_is_Some_2 l (draw mod length l)%nat) as [x Hx].
  - apply Nat.mod_upper_bound. destruct l; [congruence | discriminate].
  - exists x. split; [exact Hx|]. eapply list_elem_of_lookup_2, Hx.
Qed.

Lemma candidate_words_spec d w :
  w ∈ candidate_words csvs d <->
  w ∈ (load_word_list csvs CUSTOM_WORD_FILE
        ++ load_word_list csvs (difficulty_name d +:+ "_words.csv"))%list
  /\ (fst (DIFFICULTY_PARAMS d) <= String.length w <= snd (DIFFICULTY_PARAMS d))%nat.
Proof.
  unfold candidate_words. destruct (DIFFICULTY_PARAMS d) as [lo hi]. simpl.
  rewrite !list_elem_of_In, filter_In, andb_true_iff, Nat.leb_le, Nat.leb_le.
  reflexivity.
Qed.

(** C9. For each of the three difficulties, call the filtered pool the
    words of the custom list or of the difficulty's own list whose length
    is within easy 4..5, medium 6..7, hard 8..20.  When no word is in the
    pool, [new_game] starts no round; when some word is, it starts a fresh
    round on a word of the pool. *)
Theorem new_game_word_in_range (d : difficulty) (draw : nat) :
  let range := match d with
               | easy => (4, 5)
               | medium => (6, 7)
               | hard => (8, 20)
               end%nat in
  let listed := (load_word_list csvs CUSTOM_WORD_FILE
                 ++ load_word_list csvs (difficulty_name d +:+ "_words.csv"))%list in
  let in_pool := fun w : string =>
    w ∈ listed /\ (fst range <= String.length w <= snd range)%nat in
  ((forall w, ~ in_pool w) /\ new_game csvs d draw = None)
  \/ (exists w,
        in_pool w
        /\ new_game csvs d draw = Some (create_game_state w [] MAX_SCORE INITIAL_TIME)
        /\ word (create_game_state w [] MAX_SCORE INITIAL_TIME) = w).
Proof.
  intros range listed in_pool.
  assert (Hpool_spec : forall w, w ∈ candidate_words csvs d <-> in_pool w).
  { intros w. rewrite candidate_words_spec. subst in_pool listed range.
    destruct d; reflexivity. }
  unfold new_game.
  destruct (candidate_words csvs d) as [|w0 ws] eqn:Hpool.
  - left. split; [|reflexivity].
    intros w Hw. apply Hpool_spec in Hw. inversion Hw.
  - right.
    destruct (random_choice_elem draw (w0 :: ws)) as (w & Hw & Hin); [discriminate|].
    rewrite Hw. exists w. apply Hpool_spec in Hin.
    split; [exact Hin|]. split; [reflexivity|].
    destruct Hin as [Hin _]. simpl.
    apply elem_of_app in Hin as [Hin | Hin]; eapply load_word_list_lower; exact Hin.
Qed.

End WordSource.

(** ** One pass of the loop *)

Section Turn.

Context (fs : files).

Lemma maybe_hint_fields s draw :
  let r := maybe_hint s draw in
  word r.2 = word s
  /\ guessed_letters r.2 = guessed_letters s
  /\ score r.2 = score s
  /\ time_left r.2 = time_left s
  /\ incorrect_guesses r.2 = incorrect_guesses s
  /\ terminal r.1 = false.
Proof.
  unfold maybe_hint. repeat case_match; simpl; repeat split; reflexivity.
Qed.

Lemma charge_guess_fields s correct :
  word (charge_guess s correct) = word s
  /\ guessed_letters (charge_guess s correct) = guessed_letters s
  /\ score (charge_guess s correct) = score s - 10
  /\ time_left (charge_guess s correct) = time_left s
  /\ hint_used (charge_guess s correct) = hint_used s.
Proof. destruct correct; repeat split; reflexivity. Qed.

(** The pass when "save" is typed: the clock is not consulted. *)
Lemma game_turn_save s i :
  lower (strip (typed i)) = "save" ->
  game_turn fs s i
  = mk_result Saved s (save_game_state fs (strip (save_name i)) s).
Proof. intros H. unfold game_turn. now rewrite H. Qed.

(** The pass when the clock has run out. *)
Lemma game_turn_time_up s i :
  lower (strip (typed i)) <> "save" ->
  time_left s - int_of_float (elapsed i) <= 0 ->
  game_turn fs s i
  = mk_result TimeUp (set_time_left s (time_left s - int_of_float (elapsed i))) fs.
Proof.
  intros Hsave Ht. unfold game_turn.
  apply String.eqb_neq in Hsave. rewrite Hsave. simpl.
  assert (H : (0 <? time_left s - int_of_float (elapsed i)) = false)
    by (apply Z.ltb_ge; exact Ht).
  now rewrite H.
Qed.

(** The pass on a guess that is recorded and charged. *)
Lemma game_turn_charged s i :
  let g := lower (strip (typed i)) in
  let s1 := set_time_left s (time_left s - int_of_float (elapsed i)) in
  g <> "save" ->
  0 < time_left s1 ->
  g <> word s ->
  single_letter g && is_guessed s g = false ->
  game_turn fs s i
  = let s3 := charge_guess (add_guess s1 g).1 (add_guess s1 g).2 in
    if word_covered s3 then mk_result WordCovered s3 fs
    else if score s3 <=? 0 then mk_result ScoreOut s3 fs
    else mk_result (maybe_hint s3 (hint_draw i)).1 (maybe_hint s3 (hint_draw i)).2 fs.
Proof.
  intros g s1 Hsave Ht Hword Hrep. unfold game_turn. fold g.
  apply String.eqb_neq in Hsave. rewrite Hsave.
  unfold update_time. fold s1.
  apply Z.ltb_lt in Ht. rewrite Ht. simpl negb. cbv iota.
  apply String.eqb_neq in Hword. change (word s1) with (word s). rewrite Hword.
  change (is_guessed s1 g) with (is_guessed s g). rewrite Hrep.
  simpl. repeat case_match; reflexivity.
Qed.

(** The pass on a single letter that was guessed before. *)
Lemma game_turn_repeat s i :
  let g := lower (strip (typed i)) in
  single_letter g = true ->
  g ∈ guessed_letters s ->
  let r := game_turn fs s i in
  score (st r) = score s
  /\ incorrect_guesses (st r) = incorrect_guesses s
  /\ guessed_letters (st r) = guessed_letters s
  /\ hint_used (st r) = hint_used s.
Proof.
  intros g Hletter Hin. unfold game_turn. fold g.
  destruct (String.eqb g "save"); [repeat split; reflexivity|].
  unfold update_time. simpl.
  destruct (0 <? _); simpl; [|repeat split; reflexivity].
  destruct (String.eqb g (word s)); [repeat split; reflexivity|].
  rewrite Hletter. unfold is_guessed. simpl.
  rewrite bool_decide_eq_true_2 by exact Hin.
  repeat split; reflexivity.
Qed.

(** [int] drops the fraction of the elapsed time towards zero, on either
    side of it. *)
Lemma int_of_float_truncates :
  int_of_float (319 # 10) = 31 /\ int_of_float (9 # 10) = 0
  /\ int_of_float (- (319 # 10)) = -31.
Proof. repeat split; reflexivity. Qed.

(** C6. On a pass where a guess is typed, [time_left] first loses the
    elapsed seconds, their fraction dropped towards zero; when nothing
    is left the round is lost on time and the guess has touched neither
    the guessed letters nor the score nor the counters. *)
Theorem time_checked_before_guess s i :
  lower (strip (typed i)) <> "save" ->
  let r := game_turn fs s i in
  let remaining := time_left s - Z.quot (Qnum (elapsed i)) (Z.pos (Qden (elapsed i))) in
  time_left (st r) = remaining
  /\ (remaining <= 0 ->
      ev r = TimeUp
      /\ status_of (ev r) = LostTime
      /\ word (st r) = word s
      /\ guessed_letters (st r) = guessed_letters s
      /\ score (st r) = score s
      /\ incorrect_guesses (st r) = incorrect_guesses s
      /\ hint_used (st r) = hint_used s).
Proof.
  intros Hsave r remaining. split.
  - subst r. unfold game_turn.
    apply String.eqb_neq in Hsave. rewrite Hsave.
    unfold update_time. simpl.
    destruct (0 <? _); simpl; [|reflexivity].
    destruct (String.eqb _ (word s)); [reflexivity|].
    destruct (single_letter _ && is_guessed _ _); [reflexivity|].
    match goal with
    | |- context [charge_guess ?a ?b] =>
        pose proof (charge_guess_fields a b) as (_ & _ & _ & Hc & _)
    end.
    destruct (word_covered _); [exact Hc|].
    destruct (score _ <=? 0); [exact Hc|].
    match goal with
    | |- context [maybe_hint ?a ?b] =>
        pose proof (maybe_hint_fields a b) as (_ & _ & _ & Hh & _);
        destruct (maybe_hint a b) as [e s4]
    end.
    simpl in *. rewrite Hh, Hc. reflexivity.
  - intros Hout. subst r. rewrite (game_turn_time_up s i Hsave Hout).
    repeat split; reflexivity.
Qed.

End Turn.

(** ** Repeated guesses *)

Section Repeats.

Context (fs : files).

(** A pass that lets the round go on has recorded the letter typed. *)
Lemma game_turn_records_letter s i :
  let g := lower (strip (typed i)) in
  single_letter g = true ->
  terminal (ev (game_turn fs s i)) = false ->
  g ∈ guessed_letters (st (game_turn fs s i)).
Proof.
  intros g Hletter. unfold game_turn. fold g.
  destruct (String.eqb g "save"); [discriminate|].
  unfold update_time. simpl.
  destruct (0 <? _); simpl; [|discriminate].
  destruct (String.eqb g (word s)); [discriminate|].
  rewrite Hletter. simpl.
  destruct (is_guessed _ g) eqn:Hg;
    [intros _; apply bool_decide_eq_true in Hg; exact Hg|].
  match goal with
  | |- context [charge_guess ?a ?b] =>
      pose proof (charge_guess_fields a b) as (_ & Hc & _);
      set (s3 := charge_guess a b) in *
  end.
  destruct (word_covered s3); [discriminate|].
  destruct (score s3 <=? 0); [discriminate|].
  pose proof (maybe_hint_fields s3 (hint_draw i)) as (_ & Hh & _).
  destruct (maybe_hint s3 (hint_draw i)) as [e s4]. simpl in *.
  intros _. rewrite Hh, Hc. simpl.
  apply elem_of_union_l, elem_of_singleton. reflexivity.
Qed.

(** C7. The same single letter typed on two passes, in the word or not:
    if the round went on after the first, the letter is among the
    guessed letters, and the second pass changes neither the score nor
    the count of incorrect guesses nor the guessed letters. *)
Theorem same_letter_twice_no_penalty s i1 i2 :
  let g := lower (strip (typed i1)) in
  lower (strip (typed i2)) = g ->
  single_letter g = true ->
  let r1 := game_turn fs s i1 in
  terminal (ev r1) = false ->
  let r2 := game_turn (disk r1) (st r1) i2 in
  g ∈ guessed_letters (st r1)
  /\ score (st r2) = score (st r1)
  /\ incorrect_guesses (st r2) = incorrect_guesses (st r1)
  /\ guessed_letters (st r2) = guessed_letters (st r1).
Proof.
  intros g Hsame Hletter r1 Hgo r2.
  pose proof (game_turn_records_letter s i1 Hletter Hgo) as Hin.
  split; [exact Hin|].
  subst r2. fold r1 in Hin. fold g in Hin.
  rewrite <- Hsame in Hletter, Hin.
  destruct (game_turn_repeat (disk r1) (st r1) i2 Hletter Hin) as (H1 & H2 & H3 & _).
  auto.
Qed.

End Repeats.

(** ** Running out of score *)

Section ScoreExhaustion.

Lemma prefix_refl (w : string) : String.prefix w w = true.
Proof.
  induction w as [|c w IH]; simpl; [reflexivity|].
  destruct (ascii_dec c c); [exact IH | congruence].
Qed.

Lemma contains_refl (w : string) : contains w w = true.
Proof. destruct w; cbn [contains]; now rewrite prefix_refl. Qed.

(** Whether the word is covered depends on the word and the guessed
    letters only. *)
Lemma word_covered_ext s s' :
  word s' = word s -> guessed_letters s' = guessed_letters s ->
  word_covered s' = word_covered s.
Proof.
  intros Hw Hg. unfold word_covered, is_guessed. now rewrite Hw, Hg.
Qed.

(** Recording a guess that is not part of the word uncovers and covers
    nothing. *)
Lemma word_covered_wrong s s' g :
  word s' = word s ->
  guessed_letters s' = {[ g ]} ∪ guessed_letters s ->
  contains (word s) g = false ->
  word_covered s' = word_covered s.
Proof.
  intros Hw Hg Hwrong. unfold word_covered. rewrite Hw.
  apply eq_true_iff_eq. rewrite !forallb_forall.
  assert (Hsame : forall l, In l (chars (word s)) -> is_guessed s' l = is_guessed s l).
  { intros l Hl. apply list_elem_of_In, chars_contains in Hl.
    assert (l <> g) by congruence.
    unfold is_guessed. rewrite Hg. apply bool_decide_ext.
    rewrite elem_of_union, elem_of_singleton. tauto. }
  split; intros H l Hl; specialize (H l Hl);
    [rewrite <- Hsame | rewrite Hsame]; assumption.
Qed.

Lemma score_exhaustion_steps inputs :
  forall (k : nat) fs s,
    (1 <= k <= length inputs)%nat ->
    score s <= 10 * Z.of_nat k ->
    0 < time_left s ->
    word_covered s = false ->
    wrong_guesses s inputs ->
    let run := game_loop fs s inputs in
    (length run.1.1 <= k)%nat
    /\ final_event run = Some ScoreOut
    /\ score (final_state run) <= 0.
Proof.
  induction inputs as [|i rest IH]; intros k fs s Hk Hscore Htime Hcov (Hel & Hgs & Hnd).
  { simpl in Hk. lia. }
  rewrite Forall_forall in Hel. rewrite Forall_forall in Hgs.
  assert (Hi : int_of_float (elapsed i) = 0) by (apply Hel; left).
  destruct (Hgs (guess_of i)) as (Hsave & Hwrong & Hnew); [left|].
  assert (Hword : guess_of i <> word s).
  { intros Heq. rewrite Heq, contains_refl in Hwrong. discriminate. }
  cbn [game_loop].
  rewrite game_turn_charged; fold (guess_of i); rewrite ?Hi, ?Z.sub_0_r; simpl;
    [ | exact Hsave | exact Htime | exact Hword
      | destruct (single_letter (guess_of i)); [|reflexivity];
        unfold is_guessed; rewrite bool_decide_eq_false_2 by (apply Hnew; reflexivity);
        reflexivity ].
  rewrite Hwrong.
  set (s2 := set_guessed_letters _ _).
  pose proof (charge_guess_fields s2 false) as (Hcw & Hcg & Hcs & Hct & _).
  set (s3 := charge_guess s2 false) in *.
  assert (Hcov3 : word_covered s3 = false).
  { rewrite <- Hcov. apply (word_covered_wrong s s3 (guess_of i));
      [exact Hcw | exact Hcg | exact Hwrong]. }
  rewrite Hcov3.
  destruct (score s3 <=? 0) eqn:Hout.
  - apply Z.leb_le in Hout. simpl. unfold final_event, final_state. simpl.
    repeat split; [lia | exact Hout].
  - apply Z.leb_gt in Hout.
    pose proof (maybe_hint_fields s3 (hint_draw i)) as (Hw4 & Hg4 & Hs4 & Ht4 & _ & Hgo).
    destruct (maybe_hint s3 (hint_draw i)) as [e s4]. simpl in *.
    rewrite Hgo.
    destruct (IH (k - 1)%nat fs s4) as (Hlen & Hlast & Hfinal).
    + lia.
    + rewrite Hs4. lia.
    + rewrite Ht4. exact Htime.
    + rewrite <- Hcov3. apply word_covered_ext; assumption.
    + split; [apply Forall_forall; intros j Hj; apply Hel; right; exact Hj|].
      cbn [map List.filter] in Hnd.
      split.
      * apply Forall_forall.
        intros g Hg. destruct (Hgs g) as (Hgsave & Hgwrong & Hgnew); [right; exact Hg|].
        rewrite Hw4, Hg4.
        repeat split; [exact Hgsave | exact Hgwrong |].
        intros Hletter. specialize (Hgnew Hletter).
        assert (Hne : g <> guess_of i).
        { intros ->. rewrite Hletter in Hnd.
          apply NoDup_cons in Hnd as [Hfresh _]. apply Hfresh.
          apply list_elem_of_In, filter_In. split; [|exact Hletter].
          apply list_elem_of_In, Hg. }
        rewrite elem_of_union, elem_of_singleton. tauto.
      * destruct (single_letter (guess_of i)); [|exact Hnd].
        apply NoDup_cons in Hnd as [_ Hnd]. exact Hnd.
    + destruct (game_loop fs s4 rest) as [[es sf] fsf].
      unfold final_event, final_state in *. simpl in *.
      repeat split; [lia | | exact Hfinal].
      destruct es as [|e0 es]; [discriminate Hlast | exact Hlast].
Qed.

(** C8. A round in which every guess is a new wrong guess and no time
    passes is over within [MAX_SCORE / 10 = 10] guesses, ended by the
    check [score <= 0]. *)
Theorem score_exhaustion_bound fs s inputs :
  score s <= MAX_SCORE ->
  0 < time_left s ->
  word_covered s = false ->
  wrong_guesses s inputs ->
  (Z.to_nat (MAX_SCORE / 10) <= length inputs)%nat ->
  let run := game_loop fs s inputs in
  Z.to_nat (MAX_SCORE / 10) = 10%nat
  /\ (length run.1.1 <= 10)%nat
  /\ final_event run = Some ScoreOut
  /\ option_map status_of (final_event run) = Some LostScore
  /\ score (final_state run) <= 0.
Proof.
  intros Hscore Htime Hcov Hwrong Hlen run.
  change (Z.to_nat (MAX_SCORE / 10)) with 10%nat in *.
  destruct (score_exhaustion_steps inputs 10 fs s) as (H1 & H2 & H3);
    [lia | exact Hscore | exact Htime | exact Hcov | exact Hwrong |].
  subst run. rewrite H2. auto.
Qed.

End ScoreExhaustion.

Lemma score_exhaustion_bound_witness :
  let run := game_loop ∅ (fresh_round "cat") ten_wrong_guesses in
  wrong_guesses (fresh_round "cat") ten_wrong_guesses
  /\ (length run.1.1 <= 10)%nat
  /\ final_event run = Some ScoreOut
  /\ score (final_state run) <= 0.
Proof.
  assert (Hwrong : wrong_guesses (fresh_round "cat") ten_wrong_guesses).
  { unfold wrong_guesses. apply (bool_decide_unpack _). vm_compute. exact I. }
  split; [exact Hwrong|].
  destruct (score_exhaustion_bound ∅ (fresh_round "cat") ten_wrong_guesses)
    as (_ & Hlen & Hlast & _ & Hscore);
    [ vm_compute; discriminate | reflexivity | reflexivity | exact Hwrong
    | vm_compute; lia | ].
  auto.
Defined.

Lemma time_checked_before_guess_witness :
  let s := fresh_round "bat" in
  let r := game_turn ∅ s (guess_after "z" 31) in
  lower (strip "z") <> "save"
  /\ time_left s = 30
  /\ time_left (st r) = -1
  /\ ev r = TimeUp
  /\ status_of (ev r) = LostTime
  /\ guessed_letters (st r) = ∅
  /\ score (st r) = 100
  /\ incorrect_guesses (st r) = 0.
Proof.
  intros s r.
  assert (Hsave : lower (strip "z") <> "save") by (vm_compute; discriminate).
  split; [exact Hsave|]. split; [reflexivity|].
  destruct (time_checked_before_guess ∅ s (guess_after "z" 31) Hsave) as [Ht Hout].
  split; [exact Ht|].
  destruct Hout as (He & Hs & _ & Hg & Hsc & Hi & _); [vm_compute; discriminate|].
  repeat split; assumption.
Defined.

Lemma same_letter_twice_no_penalty_witness :
  let s := fresh_round "cat" in
  let r1 := game_turn ∅ s (guess_now "x") in
  let r2 := game_turn (disk r1) (st r1) (guess_now " X") in
  terminal (ev r1) = false
  /\ "x" ∈ guessed_letters (st r1)
  /\ score (st r1) = 90
  /\ score (st r2) = score (st r1)
  /\ incorrect_guesses (st r2) = incorrect_guesses (st r1)
  /\ guessed_letters (st r2) = guessed_letters (st r1).
Proof.
  intros s r1 r2.
  assert (Hgo : terminal (ev r1) = false) by reflexivity.
  split; [exact Hgo|].
  destruct (same_letter_twice_no_penalty ∅ s (guess_now "x") (guess_now " X")
              eq_refl eq_refl Hgo) as (Hin & Hs & Hi & Hg).
  split; [exact Hin|]. split; [reflexivity|]. auto.
Defined.

(** ** What the scoring block does *)

Section Scoring.

Context (fs : files).

(** Every guess that is recorded costs ten points; the counter goes up
    when the guess is part of the word and down when it is not. *)
Lemma game_turn_charged_counters s i :
  let g := lower (strip (typed i)) in
  g <> "save" ->
  0 < time_left s - int_of_float (elapsed i) ->
  g <> word s ->
  single_letter g && is_guessed s g = false ->
  let r := game_turn fs s i in
  score (st r) = score s - 10
  /\ incorrect_guesses (st r)
     = incorrect_guesses s + (if contains (word s) g then 1 else -1)
  /\ guessed_letters (st r) = {[ g ]} ∪ guessed_letters s.
Proof.
  intros g Hsave Ht Hword Hrep r. subst r.
  rewrite game_turn_charged by assumption. fold g. simpl.
  set (s3 := charge_guess _ _).
  assert (H3 : score s3 = score s - 10
               /\ incorrect_guesses s3
                  = incorrect_guesses s + (if contains (word s) g then 1 else -1)
               /\ guessed_letters s3 = {[ g ]} ∪ guessed_letters s).
  { subst s3. destruct (contains (word s) g); simpl; repeat split; lia. }
  destruct (word_covered s3); [exact H3|].
  destruct (score s3 <=? 0); [exact H3|].
  pose proof (maybe_hint_fields s3 (hint_draw i)) as (_ & Hg & Hs & _ & Hi & _).
  simpl. rewrite Hg, Hs, Hi. exact H3.
Qed.

End Scoring.

(** C2. On the round of "cat", the new letter "x", which is not in the
    word, takes ten points and moves [incorrect_guesses] from 0 to -1, and
    the new letter "c", which is in the word, takes ten points as well and
    moves [incorrect_guesses] from 0 to 1. *)
Theorem letter_guess_scoring_observed :
  let s := fresh_round "cat" in
  let absent := game_turn ∅ s (guess_now "x") in
  let present := game_turn ∅ s (guess_now "c") in
  (contains (word s) "x" = false
   /\ incorrect_guesses (st absent) = -1
   /\ score (st absent) = 90)
  /\ (contains (word s) "c" = true
      /\ incorrect_guesses (st present) = 1
      /\ score (st present) = 90).
Proof. vm_compute. repeat split; reflexivity. Qed.

(** C3. On the round of "cat", the input "zz", which is neither "save" nor
    the word nor a single letter, is recorded among the guessed letters,
    costs ten points and lowers [incorrect_guesses]; the round goes on. *)
Theorem invalid_input_charged :
  let s := fresh_round "cat" in
  let r := game_turn ∅ s (guess_now "zz") in
  single_letter "zz" = false
  /\ ev r = NextTurn None
  /\ ("zz" ∈ guessed_letters (st r))
  /\ ("zz" ∉ guessed_letters s)
  /\ score s = 100 /\ score (st r) = 90
  /\ incorrect_guesses s = 0 /\ incorrect_guesses (st r) = -1.
Proof.
  repeat split; try reflexivity.
  apply (bool_decide_unpack _). vm_compute. exact I.
Qed.

(** C5. On "cat" with no time passing, the guesses "x", "c", "a", "t" end
    the round as won after the fourth, with no hint, and with a final
    score of 60: each of the four guesses has cost ten points. *)
Theorem cat_scenario_score :
  let run := game_loop ∅ (fresh_round "cat") (map guess_now ["x"; "c"; "a"; "t"]) in
  run.1.1 = [NextTurn None; NextTurn None; NextTurn None; WordCovered]
  /\ option_map status_of (final_event run) = Some Won
  /\ hint_used (final_state run) = false
  /\ score (final_state run) = 60
  /\ score (final_state run) <> 90.
Proof. vm_compute. repeat split; try reflexivity. discriminate. Qed.

(** ** The hint *)

Section Hint.

Lemma maybe_hint_cases s draw :
  (exists l, maybe_hint s draw = (NextTurn (Some l), set_hint_used s true)
             /\ hint_used s = false
             /\ HINT_THRESHOLD <= incorrect_guesses s
             /\ l ∈ missing_letters s)
  \/ maybe_hint s draw = (NextTurn None, s).
Proof.
  unfold maybe_hint.
  destruct (HINT_THRESHOLD <=? incorrect_guesses s) eqn:Hthr; [|right; reflexivity].
  destruct (hint_used s) eqn:Hused; [right; reflexivity|]. simpl.
  destruct (missing_letters s) as [|m ms] eqn:Hmiss; [right; reflexivity|].
  destruct (random_choice_elem draw (m :: ms)) as (l & Hl & Hin); [discriminate|].
  left. exists l. rewrite Hl. apply Z.leb_le in Hthr. auto.
Qed.

(** A pass either prints a hint, and then none had been printed, the
    counter is at the threshold, the flag is raised and the letter is one
    of the word that is not guessed yet; or it prints none and leaves the
    flag as it was. *)
Lemma game_turn_hint_cases (fs : files) s i :
  let r := game_turn fs s i in
  (exists l, ev r = NextTurn (Some l)
             /\ hint_used s = false
             /\ hint_used (st r) = true
             /\ HINT_THRESHOLD <= incorrect_guesses (st r)
             /\ l ∈ chars (word (st r))
             /\ l ∉ guessed_letters (st r))
  \/ (hints [ev r] = [] /\ hint_used (st r) = hint_used s).
Proof.
  unfold game_turn.
  destruct (String.eqb _ "save"); [right; split; reflexivity|].
  unfold update_time. simpl.
  destruct (0 <? _); simpl; [|right; split; reflexivity].
  destruct (String.eqb _ (word s)); [right; split; reflexivity|].
  destruct (single_letter _ && is_guessed _ _); [right; split; reflexivity|].
  match goal with
  | |- context [charge_guess ?a ?b] =>
      pose proof (charge_guess_fields a b) as (_ & _ & _ & _ & Hc);
      set (s3 := charge_guess a b) in *
  end.
  simpl in Hc.
  destruct (word_covered s3); [right; split; [reflexivity | exact Hc]|].
  destruct (score s3 <=? 0); [right; split; [reflexivity | exact Hc]|].
  destruct (maybe_hint_cases s3 (hint_draw i)) as [(l & -> & Hu & Hthr & Hl) | ->].
  - left. exists l. simpl.
    apply list_elem_of_In, filter_In in Hl as [Hl Hg].
    apply negb_true_iff, bool_decide_eq_false in Hg.
    repeat split; [congruence | exact Hthr | apply list_elem_of_In, Hl | exact Hg].
  - right. split; [reflexivity | exact Hc].
Qed.

Lemma hints_cons e es : hints (e :: es) = (hints [e] ++ hints es)%list.
Proof. unfold hints. simpl. destruct e as [| | | | | |[l|]]; reflexivity. Qed.

(** Once the flag is raised no later pass prints a hint. *)
Lemma game_loop_hints_after_hint inputs :
  forall (fs : files) s,
    hint_used s = true -> hints (game_loop fs s inputs).1.1 = [].
Proof.
  induction inputs as [|i rest IH]; intros fs s Hused; [reflexivity|].
  cbn [game_loop].
  destruct (game_turn_hint_cases fs s i) as [(l & _ & Hno & _) | [Hnone Hkeep]];
    [congruence|].
  set (r := game_turn fs s i) in *.
  destruct (terminal (ev r)); [exact Hnone|].
  specialize (IH (disk r) (st r)).
  destruct (game_loop (disk r) (st r) rest) as [[es sf] fsf].
  cbn [fst] in *.
  rewrite hints_cons, Hnone, IH; [reflexivity | congruence].
Qed.

End Hint.

Section HintOnce.

(** X10. In a run the hint is printed at most once. *)
Lemma game_loop_one_hint inputs :
  forall (fs : files) s, (length (hints (game_loop fs s inputs).1.1) <= 1)%nat.
Proof.
  induction inputs as [|i rest IH]; intros fs s; [simpl; lia|].
  cbn [game_loop].
  pose proof (game_turn_hint_cases fs s i) as Hcases.
  set (r := game_turn fs s i) in *.
  pose proof (game_loop_hints_after_hint rest (disk r) (st r)) as Hafter.
  specialize (IH (disk r) (st r)).
  destruct (game_loop (disk r) (st r) rest) as [[es sf] fsf].
  cbn [fst] in *.
  destruct Hcases as [(l & He & _ & Hused & _) | [Hnone _]].
  - rewrite He. cbn [terminal status_of fst]. rewrite hints_cons, (Hafter Hused).
    simpl. lia.
  - destruct (terminal (ev r)); cbn [fst].
    + rewrite Hnone. simpl. lia.
    + rewrite hints_cons, Hnone. exact IH.
Qed.

End HintOnce.

(** C4. On a fresh round of "planet" the correct letters "p", "l", "a"
    bring [incorrect_guesses] to 3 and the hint is printed, although no
    guess was wrong; the wrong letters "x", "y", "z" bring it to -3 and no
    hint is printed. *)
Theorem hint_counts_correct_guesses :
  let good := game_loop ∅ (fresh_round "planet") (map guess_now ["p"; "l"; "a"]) in
  let bad := game_loop ∅ (fresh_round "planet") (map guess_now ["x"; "y"; "z"]) in
  (forallb (contains "planet") ["p"; "l"; "a"] = true
   /\ good.1.1 = [NextTurn None; NextTurn None; NextTurn (Some "n")]
   /\ incorrect_guesses (final_state good) = 3
   /\ hint_used (final_state good) = true)
  /\ (forallb (fun g => negb (contains "planet" g)) ["x"; "y"; "z"] = true
      /\ bad.1.1 = [NextTurn None; NextTurn None; NextTurn None]
      /\ incorrect_guesses (final_state bad) = -3
      /\ hint_used (final_state bad) = false).
Proof. vm_compute. repeat split; reflexivity. Qed.

(** ** Saving, then loading *)

Section SaveLoad.

Lemma append_cons (x : ascii) (a b : string) :
  String x a +:+ b = String x (a +:+ b).
Proof. reflexivity. Qed.

Lemma append_assoc' (a b c : string) : (a +:+ b) +:+ c = a +:+ (b +:+ c).
Proof.
  induction a as [|x a IH]; [reflexivity|].
  rewrite !append_cons. now f_equal.
Qed.

Lemma no_break_append a b : no_break (a +:+ b) = no_break a && no_break b.
Proof.
  unfold no_break. induction a as [|x a IH]; [reflexivity|].
  rewrite append_cons. cbn [all_chars]. now rewrite IH, andb_assoc.
Qed.

Lemma no_break_join (l : list string) :
  Forall (fun g => no_break g = true) l -> no_break (join "," l) = true.
Proof.
  induction 1 as [|g l Hg Hl IH]; [reflexivity|].
  destruct l as [|g' l]; [exact Hg|].
  change (join "," (g :: g' :: l)) with (g +:+ "," +:+ join "," (g' :: l)).
  now rewrite !no_break_append, Hg, IH.
Qed.

Lemma no_break_uint (d : Decimal.uint) :
  no_break (DecimalString.NilEmpty.string_of_uint d) = true.
Proof. induction d; simpl; [reflexivity | exact IHd ..]. Qed.

Lemma no_break_nilzero (d : Decimal.uint) :
  no_break (DecimalString.NilZero.string_of_uint d) = true.
Proof.
  destruct d; try reflexivity;
    match goal with
    | |- no_break (NilZero.string_of_uint ?u) = true => exact (no_break_uint u)
    end.
Qed.

Lemma no_break_str_of_int (n : Z) : no_break (str_of_int n) = true.
Proof.
  unfold str_of_int, NilZero.string_of_int.
  destruct (Z.to_int n) as [d | d]; [apply no_break_nilzero|].
  change (no_break (NilZero.string_of_uint d) = true). apply no_break_nilzero.
Qed.

Lemma universal_newlines_line a rest :
  no_break a = true ->
  universal_newlines (a +:+ String LF rest)
  = a +:+ String LF (universal_newlines rest).
Proof.
  unfold no_break. induction a as [|c a IH]; intros Ha.
  - reflexivity.
  - simpl in Ha. apply andb_true_iff in Ha as [Hc Ha].
    apply andb_true_iff in Hc as [_ Hcr]. apply negb_true_iff in Hcr.
    rewrite append_cons. cbn [universal_newlines]. rewrite Hcr, (IH Ha). reflexivity.
Qed.

Lemma split_lines_line a rest :
  no_break a = true ->
  split_lines (a +:+ String LF rest) = (a +:+ NL) :: split_lines rest.
Proof.
  unfold no_break. induction a as [|c a IH]; intros Ha.
  - reflexivity.
  - simpl in Ha. apply andb_true_iff in Ha as [Hc Ha].
    apply andb_true_iff in Hc as [Hlf _]. apply negb_true_iff in Hlf.
    rewrite append_cons. cbn [split_lines]. rewrite Hlf, (IH Ha). reflexivity.
Qed.

Lemma save_text_shape s :
  save_text s
  = (word s +:+ " ")
    +:+ String LF (join "," (elements (guessed_letters s))
                   +:+ String LF (str_of_int (time_left s)
                                  +:+ String LF EmptyString)).
Proof. unfold save_text. rewrite !append_assoc'. reflexivity. Qed.

(** Read back, the text that [save_game_state] writes has three lines. *)
Lemma save_text_lines s :
  no_break (word s) = true ->
  set_Forall (fun g => no_break g = true) (guessed_letters s) ->
  file_lines (save_text s)
  = [ (word s +:+ " ") +:+ NL;
      join "," (elements (guessed_letters s)) +:+ NL;
      str_of_int (time_left s) +:+ NL ].
Proof.
  intros Hw Hg. unfold file_lines. rewrite save_text_shape.
  assert (H1 : no_break (word s +:+ " ") = true)
    by (rewrite no_break_append, Hw; reflexivity).
  assert (H2 : no_break (join "," (elements (guessed_letters s))) = true).
  { apply no_break_join, Forall_forall. intros g Hin.
    apply Hg, elem_of_elements, Hin. }
  pose proof (no_break_str_of_int (time_left s)) as H3.
  rewrite !universal_newlines_line by assumption.
  rewrite !split_lines_line by assumption.
  reflexivity.
Qed.

(** A file written by [save_game_state] is refused by
    [load_game_state]: the fourth line it reads is not there. *)
Lemma saved_game_never_loads (fs : files) filename s :
  fs !! with_save_extension filename = Some (save_text s) ->
  no_break (word s) = true ->
  set_Forall (fun g => no_break g = true) (guessed_letters s) ->
  load_game_state fs filename = None.
Proof.
  intros Hfile Hw Hg. unfold load_game_state.
  rewrite Hfile, (save_text_lines s Hw Hg). reflexivity.
Qed.

End SaveLoad.

(** C1. The state with word "cat", guessed letter "c" and 25 seconds
    left is saved as the three lines "cat ", "c", "25"; loading that file
    gives no state at all, so nothing of the saved state is recovered. *)
Theorem save_then_load_fails :
  let fs := save_game_state ∅ "slot" saved_example in
  fs !! "slot.save" = Some ("cat " +:+ NL +:+ "c" +:+ NL +:+ "25" +:+ NL)
  /\ length (file_lines (save_text saved_example)) = 3%nat
  /\ load_game_state fs "slot" = None.
Proof. vm_compute. repeat split; reflexivity. Qed.

(** * Further properties of the code *)

(** ** The prompt *)

Section Prompt.

Context (validator : string -> option bool).

Lemma get_valid_input_skip skipped :
  forall answers,
    Forall (fun x => validator (lower (strip x)) = Some false) skipped ->
    get_valid_input validator (skipped ++ answers)
    = get_valid_input validator answers.
Proof.
  induction skipped as [|x skipped IH]; intros answers Hall; [reflexivity|].
  apply Forall_cons in Hall as [Hx Hall].
  cbn [app get_valid_input]. rewrite Hx. apply IH, Hall.
Qed.

(** X1. [get_valid_input] returns the first answer that the validator
    accepts, trimmed and in lower case, having read and rejected every
    answer before it and none after it. *)
Theorem get_valid_input_first_valid answers r rest :
  get_valid_input validator answers = Answered r rest
  <-> exists skipped a,
        answers = (skipped ++ a :: rest)%list
        /\ r = lower (strip a)
        /\ validator r = Some true
        /\ Forall (fun x => validator (lower (strip x)) = Some false) skipped.
Proof.
  split.
  - revert r rest. induction answers as [|a answers IH]; intros r rest H; [discriminate|].
    cbn [get_valid_input] in H.
    destruct (validator (lower (strip a))) as [[|]|] eqn:Hv; [| |discriminate].
    + injection H as <- <-. exists [], a. repeat split; [exact Hv | constructor].
    + destruct (IH r rest H) as (skipped & b & -> & -> & Hb & Hall).
      exists (a :: skipped), b. repeat split; [exact Hb|].
      constructor; assumption.
  - intros (skipped & a & -> & -> & Ha & Hall).
    rewrite (get_valid_input_skip skipped _ Hall).
    cbn [get_valid_input]. rewrite Ha. reflexivity.
Qed.

End Prompt.

Lemma get_valid_input_first_valid_witness :
  get_valid_input yes_or_no ["maybe"; " Y "; "n"] = Answered "y" ["n"].
Proof.
  apply (get_valid_input_first_valid yes_or_no).
  exists ["maybe"], " Y ". repeat split. repeat constructor.
Defined.

(** ** What a pass and a run keep *)

Ltac frame_done :=
  first [ assumption | discriminate | reflexivity | lia
        | apply reflexive_eq; reflexivity | intros _; assumption ].

Section Frame.

(** One pass: the word stays, guessed letters are only added, ten points
    go exactly when the scoring block ran, the clock loses the elapsed
    seconds unless "save" was typed, and only "save" writes a file. *)
Lemma game_turn_frame (fs : files) s i :
  let r := game_turn fs s i in
  word (st r) = word s
  /\ guessed_letters s ⊆ guessed_letters (st r)
  /\ score (st r) = score s - (if charged (ev r) then 10 else 0)
  /\ time_left (st r) = time_left s - seconds_charged i
  /\ (terminal (ev r) = false -> 0 < time_left (st r) /\ disk r = fs).
Proof.
  unfold game_turn, seconds_charged, guess_of.
  destruct (String.eqb _ "save"); [simpl; repeat split; frame_done|].
  unfold update_time. simpl.
  destruct (0 <? _) eqn:Ht; simpl; [|repeat split; frame_done].
  apply Z.ltb_lt in Ht.
  destruct (String.eqb _ (word s)); [simpl; repeat split; frame_done|].
  destruct (single_letter _ && is_guessed _ _); [simpl; repeat split; frame_done|].
  match goal with
  | |- context [charge_guess ?a ?b] =>
      pose proof (charge_guess_fields a b) as (Hw & Hg & Hs & Htl & _);
      set (s3 := charge_guess a b) in *
  end.
  simpl in Hw, Hg, Hs, Htl.
  assert (Hsub : guessed_letters s ⊆ guessed_letters s3)
    by (rewrite Hg; apply union_subseteq_r).
  assert (Ht3 : 0 < time_left s3) by (rewrite Htl; exact Ht).
  destruct (word_covered s3); [simpl; repeat split; frame_done|].
  destruct (score s3 <=? 0); [simpl; repeat split; frame_done|].
  destruct (maybe_hint_cases s3 (hint_draw i)) as [(l & -> & _) | ->];
    simpl; repeat split; frame_done.
Qed.

End Frame.

Section Runs.

Lemma game_loop_cons (fs : files) s i rest :
  game_loop fs s (i :: rest)
  = let r := game_turn fs s i in
    if terminal (ev r) then ([ev r], st r, disk r)
    else let run := game_loop (disk r) (st r) rest in
         (ev r :: run.1.1, run.1.2, run.2).
Proof.
  cbn [game_loop]. destruct (terminal _); [reflexivity|].
  destruct (game_loop _ _ rest) as [[es sf] fsf]. reflexivity.
Qed.

(** X2. The word of the round is the same after any run. *)
Theorem run_keeps_word inputs :
  forall (fs : files) s, word (final_state (game_loop fs s inputs)) = word s.
Proof.
  induction inputs as [|i rest IH]; intros fs s; [reflexivity|].
  rewrite game_loop_cons. cbv zeta.
  pose proof (game_turn_frame fs s i) as (Hw & _).
  destruct (terminal _); unfold final_state in *; simpl; [exact Hw|].
  rewrite IH. exact Hw.
Qed.

(** X3. No run removes a guessed letter. *)
Theorem run_keeps_guessed_letters inputs :
  forall (fs : files) s,
    guessed_letters s ⊆ guessed_letters (final_state (game_loop fs s inputs)).
Proof.
  induction inputs as [|i rest IH]; intros fs s; [reflexivity|].
  rewrite game_loop_cons. cbv zeta.
  pose proof (game_turn_frame fs s i) as (_ & Hg & _).
  destruct (terminal _); unfold final_state in *; simpl; [exact Hg|].
  etrans; [exact Hg | apply IH].
Qed.

(** X4. After a run the score is the score before, less ten points for each
    pass that went through the scoring block; the other passes (clock run
    out, whole word typed, letter typed before, save) cost nothing. *)
Theorem run_score_accounting inputs :
  forall (fs : files) s,
    let run := game_loop fs s inputs in
    score (final_state run)
    = score s - 10 * Z.of_nat (length (List.filter charged run.1.1)).
Proof.
  induction inputs as [|i rest IH]; intros fs s; [unfold final_state; simpl; lia|].
  rewrite game_loop_cons. cbv zeta.
  pose proof (game_turn_frame fs s i) as (_ & _ & Hs & _).
  set (r := game_turn fs s i) in *.
  destruct (terminal (ev r)); unfold final_state in *; cbn [fst snd List.filter].
  - rewrite Hs. destruct (charged (ev r)); simpl; lia.
  - specialize (IH (disk r) (st r)). cbv zeta in IH. rewrite IH, Hs.
    destruct (charged (ev r)); cbn [length]; lia.
Qed.

(** X5. After a run the clock shows the time before, less the whole seconds
    of each pass made; a pass on which "save" is typed takes none. *)
Theorem run_clock_accounting inputs :
  forall (fs : files) s,
    let run := game_loop fs s inputs in
    time_left (final_state run)
    = time_left s
      - foldr Z.add 0 (map seconds_charged (take (length run.1.1) inputs)).
Proof.
  induction inputs as [|i rest IH]; intros fs s; [unfold final_state; simpl; lia|].
  rewrite game_loop_cons. cbv zeta.
  pose proof (game_turn_frame fs s i) as (_ & _ & _ & Ht & _).
  set (r := game_turn fs s i) in *.
  destruct (terminal (ev r)); unfold final_state in *; cbn [fst snd length take map foldr].
  - rewrite take_0. simpl. lia.
  - specialize (IH (disk r) (st r)). cbv zeta in IH. rewrite IH, Ht. lia.
Qed.

(** X6. A run makes one pass per input until a pass ends the round: every
    event but the last lets the round go on, and inputs are left unread
    only after an event that ends it. *)
Theorem run_stops_at_first_end inputs :
  forall (fs : files) s,
    let es := (game_loop fs s inputs).1.1 in
    (length es <= length inputs)%nat
    /\ Forall (fun e => terminal e = false) (removelast es)
    /\ ((length es < length inputs)%nat ->
        exists e, last es = Some e /\ terminal e = true).
Proof.
  induction inputs as [|i rest IH]; intros fs s.
  { simpl. repeat split; [lia | constructor | lia]. }
  rewrite game_loop_cons. cbv zeta.
  set (r := game_turn fs s i) in *.
  destruct (terminal (ev r)) eqn:Hend; cbn [fst snd].
  - simpl. repeat split; [lia | constructor |].
    intros _. exists (ev r). split; [reflexivity | exact Hend].
  - destruct (IH (disk r) (st r)) as (Hlen & Hpre & Hlast).
    set (es := (game_loop (disk r) (st r) rest).1.1) in *.
    repeat split.
    + simpl. lia.
    + destruct es as [|e es']; [constructor|].
      change (removelast (ev r :: e :: es')) with (ev r :: removelast (e :: es')).
      constructor; assumption.
    + intros Hlt. destruct Hlast as (e & He & Hte); [simpl in Hlt; lia|].
      exists e. split; [|exact Hte].
      destruct es as [|e0 es']; [discriminate He | exact He].
Qed.

End Runs.

(** ** How a pass ends *)

Section PassEnds.

Context (fs : files).

Lemma word_covered_missing s :
  word_covered s = false -> missing_letters s <> [].
Proof.
  unfold word_covered, missing_letters.
  induction (chars (word s)) as [|l ls IH]; [discriminate|].
  cbn [forallb List.filter]. destruct (is_guessed s l); simpl; [exact IH|discriminate].
Qed.

(** The pass that falls through to the next iteration: the guess has
    been recorded, points and time are left, a letter of the word is still
    missing, and a hint is printed whenever the counter has reached the
    threshold and none was printed before. *)
Lemma game_turn_next s i h :
  ev (game_turn fs s i) = NextTurn h ->
  let s' := st (game_turn fs s i) in
  0 < score s'
  /\ word_covered s' = false
  /\ guess_of i ∈ guessed_letters s'
  /\ (h = None -> incorrect_guesses s' < HINT_THRESHOLD \/ hint_used s = true).
Proof.
  unfold game_turn, guess_of.
  destruct (String.eqb _ "save"); [discriminate|].
  unfold update_time. simpl.
  destruct (0 <? _); simpl; [|discriminate].
  destruct (String.eqb _ (word s)); [discriminate|].
  destruct (single_letter _ && is_guessed _ _); [discriminate|].
  match goal with
  | |- context [charge_guess ?a ?b] =>
      pose proof (charge_guess_fields a b) as (Hw & Hg & _ & _ & Hu);
      set (s3 := charge_guess a b) in *
  end.
  simpl in Hw, Hg, Hu.
  destruct (word_covered s3) eqn:Hcov; [discriminate|].
  destruct (score s3 <=? 0) eqn:Hscore; [discriminate|].
  apply Z.leb_gt in Hscore.
  assert (Hin : lower (strip (typed i)) ∈ guessed_letters s3)
    by (rewrite Hg; apply elem_of_union_l, elem_of_singleton; reflexivity).
  unfold maybe_hint.
  destruct (HINT_THRESHOLD <=? incorrect_guesses s3) eqn:Hthr.
  - destruct (hint_used s3) eqn:Hused3; simpl.
    + intros _. repeat split; try assumption. intros _. right. congruence.
    + pose proof (word_covered_missing s3 Hcov) as Hmiss.
      destruct (missing_letters s3) as [|m ms] eqn:Hm; [congruence|].
      destruct (random_choice_elem (hint_draw i) (m :: ms)) as (l & Hl & _);
        [discriminate|].
      rewrite Hl. simpl. intros Hev.
      split; [exact Hscore|]. split; [exact Hcov|]. split; [exact Hin|].
      intros ->. discriminate Hev.
  - simpl. intros _. apply Z.leb_gt in Hthr.
    repeat split; try assumption. intros _. left. exact Hthr.
Qed.

(** X7. A pass goes on to the next iteration only with points left, time
    left and a letter of the word still missing. *)
Theorem round_goes_on_only_if_open s i h :
  ev (game_turn fs s i) = NextTurn h ->
  0 < score (st (game_turn fs s i))
  /\ 0 < time_left (st (game_turn fs s i))
  /\ missing_letters (st (game_turn fs s i)) <> [].
Proof.
  intros Hev. destruct (game_turn_next s i h Hev) as (Hs & Hcov & _).
  pose proof (game_turn_frame fs s i) as (_ & _ & _ & _ & Ht).
  rewrite Hev in Ht. destruct (Ht eq_refl) as [Ht' _].
  repeat split; [exact Hs | exact Ht' | apply word_covered_missing, Hcov].
Qed.

(** X8. The hint is never held back: a pass that goes on without printing
    one has the counter below the threshold, or the hint was printed on an
    earlier pass. *)
Theorem hint_never_held_back s i :
  ev (game_turn fs s i) = NextTurn None ->
  incorrect_guesses (st (game_turn fs s i)) < HINT_THRESHOLD
  \/ hint_used s = true.
Proof.
  intros Hev. destruct (game_turn_next s i None Hev) as (_ & _ & _ & H).
  apply H. reflexivity.
Qed.

(** X9. A printed hint names a letter of the word that is not among the
    guessed letters; it comes with the counter at the threshold or above,
    on the first pass that raises the flag [hint_used]. *)
Theorem hint_names_missing_letter s i l :
  ev (game_turn fs s i) = NextTurn (Some l) ->
  hint_used s = false
  /\ hint_used (st (game_turn fs s i)) = true
  /\ HINT_THRESHOLD <= incorrect_guesses (st (game_turn fs s i))
  /\ l ∈ chars (word s)
  /\ l ∉ guessed_letters (st (game_turn fs s i)).
Proof.
  intros Hev.
  pose proof (game_turn_frame fs s i) as (Hw & _).
  destruct (game_turn_hint_cases fs s i) as [(l' & Hev' & H1 & H2 & H3 & H4 & H5) | [Hnone _]].
  - rewrite Hev in Hev'. injection Hev' as <-. rewrite <- Hw. auto.
  - rewrite Hev in Hnone. discriminate Hnone.
Qed.

(** X11. Typing the whole word wins the round exactly when it is typed in
    time and the word is not "save", which is read as the command; the
    win costs no points and records no guess. *)
Theorem whole_word_wins s i :
  (ev (game_turn fs s i) = WordGuessed
   <-> guess_of i = word s
       /\ word s <> "save"
       /\ 0 < time_left s - int_of_float (elapsed i))
  /\ (ev (game_turn fs s i) = WordGuessed ->
      score (st (game_turn fs s i)) = score s
      /\ guessed_letters (st (game_turn fs s i)) = guessed_letters s).
Proof.
  unfold game_turn, guess_of.
  destruct (String.eqb _ "save") eqn:Hsave.
  { apply String.eqb_eq in Hsave. split; [split|]; try discriminate.
    intros (Hg & Hne & _). congruence. }
  apply String.eqb_neq in Hsave.
  unfold update_time. simpl.
  destruct (0 <? _) eqn:Ht; simpl.
  2:{ apply Z.ltb_ge in Ht. split; [split|]; try discriminate.
      intros (_ & _ & Hpos). lia. }
  apply Z.ltb_lt in Ht.
  destruct (String.eqb _ (word s)) eqn:Hword.
  { apply String.eqb_eq in Hword. simpl. split; [split|]; auto.
    intros _. repeat split; [exact Hword | congruence | exact Ht]. }
  apply String.eqb_neq in Hword.
  assert (Hno : forall r, ev r <> WordGuessed ->
                  (ev r = WordGuessed
                   <-> lower (strip (typed i)) = word s /\ word s <> "save"
                       /\ 0 < time_left s - int_of_float (elapsed i))
                  /\ (ev r = WordGuessed ->
                      score (st r) = score s /\ guessed_letters (st r) = guessed_letters s)).
  { intros r Hr. split; [split|]; try (intros; contradiction).
    intros (Hg & _). contradiction. }
  destruct (single_letter _ && is_guessed _ _); [apply Hno; discriminate|].
  destruct (word_covered _); [apply Hno; discriminate|].
  destruct (score _ <=? 0); [apply Hno; discriminate|].
  match goal with
  | |- context [maybe_hint ?a ?b] =>
      destruct (maybe_hint_cases a b) as [(l & -> & _) | ->]
  end; apply Hno; discriminate.
Qed.

(** X12. An empty answer, or one of blanks only, is a guess like any other:
    the empty string is part of every word, so it is recorded, costs ten
    points and raises the counter. *)
Theorem empty_input_is_charged s i :
  guess_of i = "" ->
  word s <> "" ->
  0 < time_left s - int_of_float (elapsed i) ->
  "" ∈ guessed_letters (st (game_turn fs s i))
  /\ score (st (game_turn fs s i)) = score s - 10
  /\ incorrect_guesses (st (game_turn fs s i)) = incorrect_guesses s + 1.
Proof.
  unfold guess_of. intros Hg Hw Ht.
  destruct (game_turn_charged_counters fs s i) as (Hs & Hi & Hgs).
  - rewrite Hg. discriminate.
  - exact Ht.
  - rewrite Hg. congruence.
  - rewrite Hg. reflexivity.
  - rewrite Hg in *. rewrite Hs, Hi, Hgs.
    assert (Hc : contains (word s) "" = true) by (destruct (word s); reflexivity).
    rewrite Hc. repeat split.
    apply elem_of_union_l, elem_of_singleton. reflexivity.
Qed.

End PassEnds.

Lemma round_goes_on_only_if_open_witness :
  let r := game_turn ∅ (fresh_round "cat") (guess_now "x") in
  ev r = NextTurn None
  /\ 0 < score (st r) /\ 0 < time_left (st r) /\ missing_letters (st r) <> [].
Proof.
  intros r. assert (Hev : ev r = NextTurn None) by reflexivity.
  split; [exact Hev|].
  exact (round_goes_on_only_if_open ∅ (fresh_round "cat") (guess_now "x") None Hev).
Defined.

Lemma hint_never_held_back_witness :
  let r := game_turn ∅ (fresh_round "cat") (guess_now "x") in
  ev r = NextTurn None
  /\ (incorrect_guesses (st r) < HINT_THRESHOLD \/ hint_used (fresh_round "cat") = true).
Proof.
  intros r. assert (Hev : ev r = NextTurn None) by reflexivity.
  split; [exact Hev|].
  exact (hint_never_held_back ∅ (fresh_round "cat") (guess_now "x") Hev).
Defined.

Lemma hint_names_missing_letter_witness :
  let r := game_turn ∅ planet_after_two (guess_now "a") in
  ev r = NextTurn (Some "n")
  /\ hint_used planet_after_two = false
  /\ hint_used (st r) = true
  /\ HINT_THRESHOLD <= incorrect_guesses (st r)
  /\ "n" ∈ chars (word planet_after_two)
  /\ "n" ∉ guessed_letters (st r).
Proof.
  intros r. assert (Hev : ev r = NextTurn (Some "n")) by (vm_compute; reflexivity).
  split; [exact Hev|].
  exact (hint_names_missing_letter ∅ planet_after_two (guess_now "a") "n" Hev).
Defined.

Lemma whole_word_wins_witness :
  ev (game_turn ∅ (fresh_round "cat") (guess_after " CAT " 5)) = WordGuessed
  /\ score (st (game_turn ∅ (fresh_round "cat") (guess_after " CAT " 5))) = 100.
Proof.
  destruct (whole_word_wins ∅ (fresh_round "cat") (guess_after " CAT " 5))
    as [[_ Hwin] Hkeep].
  assert (Hev : ev (game_turn ∅ (fresh_round "cat") (guess_after " CAT " 5))
                = WordGuessed).
  { apply Hwin. repeat split; first [reflexivity | discriminate]. }
  split; [exact Hev|]. destruct (Hkeep Hev) as [Hs _]. exact Hs.
Defined.

Lemma empty_input_is_charged_witness :
  let r := game_turn ∅ (fresh_round "cat") (guess_now "   ") in
  guess_of (guess_now "   ") = ""
  /\ "" ∈ guessed_letters (st r)
  /\ score (st r) = 90
  /\ incorrect_guesses (st r) = 1.
Proof.
  intros r. split; [reflexivity|].
  exact (empty_input_is_charged ∅ (fresh_round "cat") (guess_now "   ")
           eq_refl ltac:(discriminate) eq_refl).
Defined.

(** ** Trimming and lower case *)

Section Trimming.

Lemma isspace_lower_c (c : ascii) : isspace_c (lower_c c) = isspace_c c.
Proof. destruct c as [[] [] [] [] [] [] [] []]; vm_compute; reflexivity. Qed.

Lemma isalpha_nonspace_c (c : ascii) : isalpha_c c = true -> nonspace_c c = true.
Proof. destruct c as [[] [] [] [] [] [] [] []]; vm_compute; congruence. Qed.

Lemma all_chars_impl (p q : ascii -> bool) s :
  (forall c, p c = true -> q c = true) ->
  all_chars p s = true -> all_chars q s = true.
Proof.
  intros Hpq. induction s as [|c s IH]; [reflexivity|]. cbn [all_chars].
  rewrite !andb_true_iff. intros [Hc Hs]. auto.
Qed.


Lemma lstrip_lower s : lstrip (lower s) = lower (lstrip s).
Proof.
  induction s as [|c s IH]; [reflexivity|].
  cbn [lower lstrip]. rewrite isspace_lower_c.
  destruct (isspace_c c); [exact IH | reflexivity].
Qed.

Lemma rstrip_lower s : rstrip (lower s) = lower (rstrip s).
Proof.
  induction s as [|c s IH]; [reflexivity|].
  cbn [lower rstrip]. rewrite IH, isspace_lower_c.
  destruct (rstrip s); cbn [lower]; [destruct (isspace_c c)|]; reflexivity.
Qed.

(** Trimming and lowering commute: [game_loop] trims first and
    [add_custom_words] lowers first, to the same effect. *)
Lemma strip_lower s : strip (lower s) = lower (strip s).
Proof. unfold strip. now rewrite lstrip_lower, rstrip_lower. Qed.

Lemma lstrip_nonspace s : all_chars nonspace_c s = true -> lstrip s = s.
Proof.
  destruct s as [|c s]; [reflexivity|]. cbn [all_chars lstrip].
  unfold nonspace_c at 1. rewrite andb_true_iff, negb_true_iff.
  intros [-> _]. reflexivity.
Qed.

Lemma rstrip_nonspace s : all_chars nonspace_c s = true -> rstrip s = s.
Proof.
  induction s as [|c s IH]; [reflexivity|]. cbn [all_chars rstrip].
  unfold nonspace_c at 1. rewrite andb_true_iff, negb_true_iff.
  intros [Hc Hs]. rewrite (IH Hs), Hc. destruct s; reflexivity.
Qed.

Lemma strip_nonspace s : all_chars nonspace_c s = true -> strip s = s.
Proof.
  intros H. unfold strip. now rewrite (lstrip_nonspace s H), (rstrip_nonspace s H).
Qed.

Lemma isalpha_nonspace s : isalpha s = true -> all_chars nonspace_c s = true.
Proof.
  destruct s as [|c s]; [discriminate|]. unfold isalpha.
  apply all_chars_impl, isalpha_nonspace_c.
Qed.

Lemma strip_isalpha s : isalpha s = true -> strip s = s.
Proof. intros H. apply strip_nonspace, isalpha_nonspace, H. Qed.

Lemma rstrip_cons c s :
  rstrip (String c s)
  = match rstrip s with
    | EmptyString => if isspace_c c then EmptyString else String c EmptyString
    | r => String c r
    end.
Proof. reflexivity. Qed.

Lemma rstrip_idem s : rstrip (rstrip s) = rstrip s.
Proof.
  induction s as [|c s IH]; [reflexivity|]. rewrite rstrip_cons.
  destruct (rstrip s) as [|d r] eqn:Hr.
  - destruct (isspace_c c) eqn:Hc; [reflexivity|].
    rewrite rstrip_cons. cbn [rstrip]. now rewrite Hc.
  - rewrite rstrip_cons, IH. reflexivity.
Qed.

Lemma lstrip_head s :
  match lstrip s with
  | EmptyString => True
  | String c _ => isspace_c c = false
  end.
Proof.
  induction s as [|c s IH]; [exact I|]. cbn [lstrip].
  destruct (isspace_c c) eqn:Hc; [exact IH | exact Hc].
Qed.

Lemma rstrip_keeps_head c s :
  isspace_c c = false ->
  exists r, rstrip (String c s) = String c r.
Proof.
  intros Hc. cbn [rstrip]. destruct (rstrip s); rewrite ?Hc; eauto.
Qed.

(** Trimming twice is trimming once. *)
Lemma strip_idem s : strip (strip s) = strip s.
Proof.
  unfold strip. pose proof (lstrip_head s) as Hhead.
  destruct (lstrip s) as [|c t]; [reflexivity|].
  destruct (rstrip_keeps_head c t Hhead) as [r Hr].
  rewrite Hr. cbn [lstrip]. rewrite Hhead, <- Hr. apply rstrip_idem.
Qed.

(** A guess, as the loop compares it, is trimmed. *)
Lemma strip_guess_of i : strip (guess_of i) = guess_of i.
Proof. unfold guess_of. now rewrite <- strip_lower, strip_idem. Qed.

End Trimming.

(** ** Names of save files *)

Section FileNames.

Lemma str_length_append a b :
  String.length (a +:+ b) = (String.length a + String.length b)%nat.
Proof.
  induction a as [|x a IH]; [reflexivity|].
  rewrite append_cons. cbn [String.length]. now rewrite IH.
Qed.

Lemma substring_whole b : String.substring 0 (String.length b) b = b.
Proof. induction b as [|x b IH]; [reflexivity|]. cbn. now rewrite IH. Qed.

Lemma substring_append_r a b :
  String.substring (String.length a) (String.length b) (a +:+ b) = b.
Proof.
  induction a as [|x a IH]; [apply substring_whole|].
  rewrite append_cons. cbn [String.length String.substring]. exact IH.
Qed.

Lemma endswith_append a b : endswith (a +:+ b) b = true.
Proof.
  unfold endswith. rewrite str_length_append.
  replace (String.length a + String.length b - String.length b)%nat
    with (String.length a) by lia.
  rewrite substring_append_r, String.eqb_refl, andb_true_r.
  apply Nat.leb_le. lia.
Qed.

Lemma with_save_extension_ends f : endswith (with_save_extension f) ".save" = true.
Proof.
  unfold with_save_extension. destruct (endswith f ".save") eqn:H; [exact H|].
  apply endswith_append.
Qed.

Lemma with_save_extension_fixed f :
  endswith f ".save" = true -> with_save_extension f = f.
Proof. unfold with_save_extension. now intros ->. Qed.

Lemma sanitize_append a b : sanitize (a +:+ b) = sanitize a +:+ sanitize b.
Proof.
  induction a as [|x a IH]; [reflexivity|].
  rewrite append_cons. cbn [sanitize]. now rewrite IH, append_cons.
Qed.




(** X14. The extension may be typed or left out: unless the name already ends
    in ".save", saving and loading under the name and under the name
    followed by ".save" use the same file. *)
Theorem save_extension_optional (fs : files) f s :
  endswith (sanitize f) ".save" = false ->
  endswith f ".save" = false ->
  save_game_state fs (f +:+ ".save") s = save_game_state fs f s
  /\ load_game_state fs (f +:+ ".save") = load_game_state fs f.
Proof.
  intros Hsan Hraw. split.
  - unfold save_game_state. rewrite sanitize_append.
    change (sanitize ".save") with ".save".
    rewrite (with_save_extension_fixed (sanitize f +:+ ".save")) by apply endswith_append.
    unfold with_save_extension. rewrite Hsan. reflexivity.
  - unfold load_game_state.
    rewrite (with_save_extension_fixed (f +:+ ".save")) by apply endswith_append.
    unfold with_save_extension. rewrite Hraw. reflexivity.
Qed.

Lemma list_save_files_elem (fs : files) file :
  file ∈ list_save_files fs
  <-> is_Some (fs !! file) /\ endswith file ".save" = true.
Proof.
  unfold list_save_files.
  rewrite list_elem_of_In, filter_In, <- list_elem_of_In.
  rewrite elem_of_elements, elem_of_dom. reflexivity.
Qed.

(** X15. The load menu lists each file of the directory whose name ends in
    ".save", once, and nothing else. *)
Theorem list_save_files_spec (fs : files) :
  NoDup (list_save_files fs)
  /\ forall file,
       file ∈ list_save_files fs
       <-> is_Some (fs !! file) /\ endswith file ".save" = true.
Proof.
  split; [|apply list_save_files_elem].
  unfold list_save_files.
  apply NoDup_ListNoDup, List.NoDup_filter, NoDup_ListNoDup, NoDup_elements.
Qed.


End FileNames.

Lemma save_extension_optional_witness :
  save_game_state ∅ ("slot" +:+ ".save") saved_example
  = save_game_state ∅ "slot" saved_example
  /\ load_game_state {[ "slot.save" := four_line_save ]} ("slot" +:+ ".save")
     = load_game_state {[ "slot.save" := four_line_save ]} "slot".
Proof.
  split.
  - apply (save_extension_optional ∅ "slot" saved_example); reflexivity.
  - apply (save_extension_optional {[ "slot.save" := four_line_save ]}
             "slot" saved_example); reflexivity.
Defined.

(** ** Loading *)

Section LoadingFormat.

Context (fs : files).

(** X17. [load_game_state] gives nothing when the file is missing or has
    fewer than four lines. *)
Theorem load_needs_four_lines f :
  (forall content, fs !! with_save_extension f = Some content ->
                   (length (file_lines content) < 4)%nat) ->
  load_game_state fs f = None.
Proof.
  intros Hshort. unfold load_game_state.
  destruct (fs !! with_save_extension f) as [content|]; [|reflexivity].
  specialize (Hshort content eq_refl).
  assert (Hnone : map strip (file_lines content) !! 3%nat = None)
    by (apply lookup_ge_None; rewrite length_map; lia).
  rewrite Hnone. repeat case_match; reflexivity.
Qed.

(** X18. What a successful load has read: the word is the first line in lower
    case, the guessed letters are the fields of the second line between
    commas (none for an empty line), the score and the time are the
    integers on the third and the fourth line; every line is trimmed and
    lines after the fourth are ignored. *)
Theorem load_game_state_format f s :
  load_game_state fs f = Some s ->
  exists content l0 l1 l2 l3 more,
    fs !! with_save_extension f = Some content
    /\ map strip (file_lines content) = l0 :: l1 :: l2 :: l3 :: more
    /\ word s = lower l0
    /\ (forall g, g ∈ guessed_letters s <-> l1 <> "" /\ g ∈ split "," l1)
    /\ int_of_str l2 = Some (score s)
    /\ int_of_str l3 = Some (time_left s).
Proof.
  unfold load_game_state. intros H.
  destruct (fs !! with_save_extension f) as [content|]; [|discriminate].
  destruct (map strip (file_lines content)) as [|l0 [|l1 [|l2 [|l3 more]]]] eqn:Hlines;
    try discriminate.
  cbn [lookup list_lookup] in H.
  destruct (int_of_str l2) as [sc|] eqn:H2; [|discriminate].
  destruct (int_of_str l3) as [tl|] eqn:H3; [|discriminate].
  injection H as <-.
  exists content, l0, l1, l2, l3, more.
  split; [reflexivity|]. split; [exact Hlines|]. split; [reflexivity|].
  split; [|split; [exact H2 | exact H3]].
  intros g. cbn [create_game_state guessed_letters].
  destruct l1 as [|c l1].
  - split; [intros Hin; inversion Hin | intros [Hne _]; congruence].
  - destruct (split "," (String c l1)) as [|x xs] eqn:Hsp.
    + split; [intros Hin; inversion Hin | intros [_ Hin]; inversion Hin].
    + rewrite elem_of_list_to_set. split; [intros Hin; split; [discriminate|exact Hin]|].
      intros [_ Hin]. exact Hin.
Qed.

End LoadingFormat.

Lemma load_needs_four_lines_witness :
  length (file_lines (save_text saved_example)) = 3%nat
  /\ load_game_state {[ "slot.save" := save_text saved_example ]} "slot" = None.
Proof.
  split; [reflexivity|].
  apply load_needs_four_lines. intros content Hc.
  change (with_save_extension "slot") with "slot.save" in Hc.
  rewrite lookup_singleton_eq in Hc. injection Hc as <-. vm_compute. lia.
Defined.

Lemma load_game_state_format_witness :
  exists content l0 l1 l2 l3 more,
    ({[ "slot.save" := four_line_save ]} : files) !! with_save_extension "slot"
    = Some content
    /\ map strip (file_lines content) = l0 :: l1 :: l2 :: l3 :: more
    /\ word loaded_example = lower l0
    /\ (forall g, g ∈ guessed_letters loaded_example <-> l1 <> "" /\ g ∈ split "," l1)
    /\ int_of_str l2 = Some (score loaded_example)
    /\ int_of_str l3 = Some (time_left loaded_example).
Proof.
  apply (load_game_state_format {[ "slot.save" := four_line_save ]} "slot").
  vm_compute. reflexivity.
Defined.

Lemma saved_game_never_loads_witness :
  load_game_state (save_game_state ∅ "slot" saved_example) "slot" = None.
Proof.
  apply (saved_game_never_loads _ "slot" saved_example).
  - reflexivity.
  - reflexivity.
  - intros g Hg. cbn [saved_example guessed_letters] in Hg.
    apply elem_of_singleton in Hg as ->. reflexivity.
Defined.

(** ** Saving and loading together *)

Section SaveThenLoad.


End SaveThenLoad.


(** ** The state of a new game *)

Section NewGame.

Context (csvs : csv_files).

Lemma word_covered_nothing_guessed s :
  guessed_letters s = ∅ -> word s <> "" -> word_covered s = false.
Proof.
  intros Hg Hw. unfold word_covered, is_guessed. rewrite Hg.
  destruct (word s) as [|c w]; [congruence|]. reflexivity.
Qed.

(** X20. A round started by [new_game] is a fresh one: full score and time,
    nothing guessed, counter and hint flag reset; its word is one of the
    listed words, unchanged by lowering, 4 to 20 characters long, and not
    yet covered. *)
Theorem new_game_state_fresh d draw s :
  new_game csvs d draw = Some s ->
  s = mk_state (word s) ∅ MAX_SCORE INITIAL_TIME 0 false
  /\ word s ∈ (load_word_list csvs CUSTOM_WORD_FILE
               ++ load_word_list csvs (difficulty_name d +:+ "_words.csv"))%list
  /\ lower (word s) = word s
  /\ (4 <= String.length (word s) <= 20)%nat
  /\ word_covered s = false.
Proof.
  unfold new_game. intros H.
  destruct (candidate_words csvs d) as [|w0 ws] eqn:Hpool; [discriminate|].
  destruct (random_choice_elem draw (w0 :: ws)) as (w & Hw & Hin); [discriminate|].
  rewrite Hw in H. injection H as <-.
  rewrite <- Hpool in Hin. apply candidate_words_spec in Hin as [Hin Hlen].
  assert (Hlow : lower w = w).
  { apply elem_of_app in Hin as [Hin | Hin]; eapply load_word_list_lower; exact Hin. }
  assert (Hrange : (4 <= String.length w <= 20)%nat) by (destruct d; simpl in Hlen; lia).
  unfold create_game_state. cbn [word]. rewrite !Hlow.
  split; [reflexivity|]. split; [exact Hin|]. split; [reflexivity|].
  split; [exact Hrange|].
  apply word_covered_nothing_guessed; [reflexivity|].
  cbn [word]. intros ->. simpl in Hrange. lia.
Qed.

End NewGame.

(** ** A word with a blank at either end *)

Section BlankEdge.

Lemma game_turn_guessed_from (fs : files) s i g :
  g ∈ guessed_letters (st (game_turn fs s i)) ->
  g ∈ guessed_letters s \/ g = guess_of i.
Proof.
  unfold game_turn, guess_of.
  destruct (String.eqb _ "save"); [auto|].
  unfold update_time. simpl.
  destruct (0 <? _); simpl; [|auto].
  destruct (String.eqb _ (word s)); [auto|].
  destruct (single_letter _ && is_guessed _ _); [auto|].
  match goal with
  | |- context [charge_guess ?a ?b] =>
      pose proof (charge_guess_fields a b) as (_ & Hg & _);
      set (s3 := charge_guess a b) in *
  end.
  simpl in Hg.
  assert (H3 : g ∈ guessed_letters s3 ->
               g ∈ guessed_letters s \/ g = lower (strip (typed i))).
  { rewrite Hg, elem_of_union, elem_of_singleton. tauto. }
  destruct (word_covered s3); [exact H3|].
  destruct (score s3 <=? 0); [exact H3|].
  destruct (maybe_hint_cases s3 (hint_draw i)) as [(l & -> & _) | ->]; exact H3.
Qed.

(** A pass that wins the round has seen the whole word typed or has
    found every letter of the word among the guessed letters. *)
Lemma game_turn_won (fs : files) s i :
  status_of (ev (game_turn fs s i)) = Won ->
  guess_of i = word s \/ word_covered (st (game_turn fs s i)) = true.
Proof.
  unfold game_turn, guess_of.
  destruct (String.eqb _ "save"); [discriminate|].
  unfold update_time. simpl.
  destruct (0 <? _); simpl; [|discriminate].
  destruct (String.eqb _ (word s)) eqn:Hw;
    [apply String.eqb_eq in Hw; auto|].
  destruct (single_letter _ && is_guessed _ _); [discriminate|].
  destruct (word_covered _) eqn:Hcov; [auto|].
  destruct (score _ <=? 0); [discriminate|].
  match goal with
  | |- context [maybe_hint ?a ?b] =>
      destruct (maybe_hint_cases a b) as [(l & -> & _) | ->]
  end; discriminate.
Qed.

Lemma all_chars_false p w :
  all_chars p w = false ->
  exists c, String c EmptyString ∈ chars w /\ p c = false.
Proof.
  induction w as [|c w IH]; [discriminate|]. cbn [all_chars chars].
  destruct (p c) eqn:Hc; simpl.
  - intros H. destruct (IH H) as (c' & Hin & Hc'). exists c'.
    split; [right; exact Hin | exact Hc'].
  - intros _. exists c. split; [left | exact Hc].
Qed.

Lemma strip_blank c : isspace_c c = true -> strip (String c EmptyString) = EmptyString.
Proof. intros Hc. unfold strip. cbn [lstrip]. now rewrite Hc. Qed.

Lemma blank_edge_pass (fs : files) s i :
  strip (word s) <> word s ->
  set_Forall (fun g => strip g = g) (guessed_letters s) ->
  status_of (ev (game_turn fs s i)) <> Won
  /\ set_Forall (fun g => strip g = g) (guessed_letters (st (game_turn fs s i))).
Proof.
  intros Hword Hguessed.
  assert (Hkeep : set_Forall (fun g => strip g = g)
                    (guessed_letters (st (game_turn fs s i)))).
  { intros g Hg. apply game_turn_guessed_from in Hg as [Hg | ->];
      [apply Hguessed, Hg | apply strip_guess_of]. }
  split; [|exact Hkeep].
  intros Hwon. apply game_turn_won in Hwon as [Hg | Hcov].
  - apply Hword. rewrite <- Hg. apply strip_guess_of.
  - destruct (all_chars nonspace_c (word s)) eqn:Hns;
      [apply Hword, strip_nonspace, Hns|].
    apply all_chars_false in Hns as (c & Hin & Hc).
    apply negb_false_iff in Hc.
    pose proof (game_turn_frame fs s i) as (Hw & _).
    unfold word_covered in Hcov. rewrite Hw in Hcov.
    rewrite forallb_forall in Hcov.
    specialize (Hcov _ (proj1 (list_elem_of_In _ _) Hin)).
    apply bool_decide_eq_true in Hcov. apply Hkeep in Hcov.
    rewrite (strip_blank c Hc) in Hcov. discriminate.
Qed.

(** X21. A word with a blank at its start or end cannot be won: answers are
    trimmed before they are compared, so neither the whole word nor the
    blank can be typed.  Word lists keep such blanks, since only the
    trimmed entry is tested for letters. *)
Theorem blank_edged_word_never_won inputs :
  forall (fs : files) s,
    strip (word s) <> word s ->
    set_Forall (fun g => strip g = g) (guessed_letters s) ->
    Forall (fun e => status_of e <> Won) (game_loop fs s inputs).1.1.
Proof.
  induction inputs as [|i rest IH]; intros fs s Hword Hguessed; [constructor|].
  rewrite game_loop_cons. cbv zeta.
  destruct (blank_edge_pass fs s i Hword Hguessed) as [Hnot Hkeep].
  pose proof (game_turn_frame fs s i) as (Hw & _).
  destruct (terminal _); cbn [fst].
  - constructor; [exact Hnot | constructor].
  - constructor; [exact Hnot|]. apply IH; [rewrite Hw; exact Hword | exact Hkeep].
Qed.

End BlankEdge.

Lemma new_game_state_fresh_witness :
  let s := fresh_round " cat " in
  new_game example_word_lists easy 1 = Some s
  /\ s = mk_state (word s) ∅ MAX_SCORE INITIAL_TIME 0 false
  /\ word s ∈ (load_word_list example_word_lists CUSTOM_WORD_FILE
               ++ load_word_list example_word_lists (difficulty_name easy +:+ "_words.csv"))%list
  /\ lower (word s) = word s
  /\ (4 <= String.length (word s) <= 20)%nat
  /\ word_covered s = false.
Proof.
  intros s.
  assert (H : new_game example_word_lists easy 1 = Some s) by (vm_compute; reflexivity).
  split; [exact H|]. exact (new_game_state_fresh example_word_lists easy 1 s H).
Defined.

Lemma blank_edged_word_never_won_witness :
  let s := fresh_round " cat " in
  let inputs := map guess_now ["c"; "a"; "t"; "cat"; " cat "; " "] in
  strip (word s) <> word s
  /\ length (game_loop ∅ s inputs).1.1 = 6%nat
  /\ Forall (fun e => status_of e <> Won) (game_loop ∅ s inputs).1.1.
Proof.
  intros s inputs.
  assert (Hw : strip (word s) <> word s) by (vm_compute; discriminate).
  split; [exact Hw|]. split; [vm_compute; reflexivity|].
  apply (blank_edged_word_never_won inputs ∅ s Hw).
  intros g Hg. inversion Hg.
Defined.

(** ** Adding custom words *)

Section CustomWords.

Lemma load_word_list_append_row (csvs : csv_files) file w file' :
  isalpha (strip w) = true ->
  load_word_list (append_row csvs file [w]) file'
  = if decide (file = file')
    then (load_word_list csvs file' ++ [lower w])%list
    else load_word_list csvs file'.
Proof.
  intros Halpha. unfold load_word_list, append_row.
  destruct (decide (file = file')) as [<- | Hne].
  - rewrite lookup_insert_eq.
    destruct (csvs !! file) as [rows|]; cbn [default].
    + rewrite flat_map_app. cbn [flat_map]. now rewrite Halpha, app_nil_r.
    + cbn [app flat_map]. now rewrite Halpha.
  - rewrite lookup_insert_ne by exact Hne. reflexivity.
Qed.

Lemma load_word_list_created (csvs : csv_files) file file' :
  csvs !! file = None ->
  load_word_list (<[ file := [] ]> csvs) file' = load_word_list csvs file'.
Proof.
  intros Hf. unfold load_word_list. destruct (decide (file = file')) as [<- | Hne].
  - now rewrite lookup_insert_eq, Hf.
  - now rewrite lookup_insert_ne by exact Hne.
Qed.

Context (env : word_file_env).
Hypothesis readable : forall k, can_read env k = true.

(** On a complete and readable file the loop only appends, and what it
    appends are accepted words that are new and distinct. *)
Lemma add_words_appends answers :
  forall (k : nat) (csvs : csv_files),
  exists added,
    load_word_list (add_words env None k csvs answers).1 CUSTOM_WORD_FILE
    = (load_word_list csvs CUSTOM_WORD_FILE ++ added)%list
    /\ Forall accepted_word added
    /\ NoDup added
    /\ (forall w, w ∈ added -> w ∉ load_word_list csvs CUSTOM_WORD_FILE)
    /\ (forall file, file <> CUSTOM_WORD_FILE ->
          load_word_list (add_words env None k csvs answers).1 file
          = load_word_list csvs file).
Proof.
  induction answers as [|a rest IH]; intros k csvs.
  { exists []. cbn [add_words fst]. rewrite app_nil_r.
    repeat split; [constructor | constructor | intros w Hw; inversion Hw]. }
  cbn [add_words]. set (w := strip (lower a)).
  destruct (String.eqb w "done") eqn:Hdone.
  { exists []. cbn [fst]. rewrite app_nil_r.
    repeat split; [constructor | constructor | intros w' Hw; inversion Hw]. }
  apply String.eqb_neq in Hdone.
  destruct (isalpha w) eqn:Halpha; cbn [negb]; [|apply IH].
  destruct ((String.length w <? 4)%nat || (20 <? String.length w)%nat) eqn:Hlen;
    [apply IH|].
  apply orb_false_iff in Hlen as [Hlo Hhi].
  apply Nat.ltb_ge in Hlo. apply Nat.ltb_ge in Hhi.
  unfold existing_words. rewrite readable.
  destruct (bool_decide_reflect (w ∈ load_word_list csvs CUSTOM_WORD_FILE))
    as [Hold | Hnew]; [apply IH|].
  destruct (can_append env k); [|apply IH].
  cbn [write_row fst snd].
  assert (Hstrip : strip w = w) by (apply strip_isalpha, Halpha).
  assert (Hlow : lower w = w).
  { subst w. now rewrite <- strip_lower, lower_idem. }
  assert (Hrow : isalpha (strip w) = true) by (rewrite Hstrip; exact Halpha).
  destruct (IH (S k) (append_row csvs CUSTOM_WORD_FILE [w]))
    as (added & Hlist & Hvalid & Hnd & Hfresh & Hother).
  rewrite (load_word_list_append_row csvs _ w CUSTOM_WORD_FILE Hrow) in Hlist.
  rewrite (load_word_list_append_row csvs _ w CUSTOM_WORD_FILE Hrow) in Hfresh.
  rewrite decide_True in Hlist by reflexivity.
  rewrite decide_True in Hfresh by reflexivity.
  rewrite Hlow in Hlist. rewrite Hlow in Hfresh.
  exists (w :: added). split; [rewrite Hlist, <- app_assoc; reflexivity|].
  split; [constructor; [repeat split; assumption | exact Hvalid]|].
  split.
  { constructor; [|exact Hnd]. intros Hin. apply (Hfresh w Hin).
    apply elem_of_app. right. left. }
  split.
  { intros w' Hw'. apply elem_of_cons in Hw' as [-> | Hw']; [exact Hnew|].
    intros Hin. apply (Hfresh w' Hw'). apply elem_of_app. left. exact Hin. }
  intros file Hfile. rewrite (Hother file Hfile).
  rewrite (load_word_list_append_row csvs _ w file Hrow).
  rewrite decide_False by congruence. reflexivity.
Qed.

(** The same for the whole function, when the file that exists is
    complete. *)
Lemma add_custom_words_run (csvs : csv_files) answers csvs' done :
  file_complete env = true ->
  add_custom_words env csvs answers = Some (csvs', done) ->
  exists added,
    load_word_list csvs' CUSTOM_WORD_FILE
    = (load_word_list csvs CUSTOM_WORD_FILE ++ added)%list
    /\ Forall accepted_word added
    /\ NoDup added
    /\ (forall w, w ∈ added -> w ∉ load_word_list csvs CUSTOM_WORD_FILE)
    /\ (forall file, file <> CUSTOM_WORD_FILE ->
          load_word_list csvs' file = load_word_list csvs file).
Proof.
  intros Hcomplete. unfold add_custom_words. rewrite Hcomplete.
  destruct (csvs !! CUSTOM_WORD_FILE) as [rows|] eqn:Hfile.
  - intros H. injection H as H.
    destruct (add_words_appends answers 0 csvs)
      as (added & Hlist & Hvalid & Hnd & Hfresh & Hother).
    rewrite H in Hlist, Hother. cbn [fst] in Hlist, Hother.
    exists added. auto.
  - destruct (can_create env); [|discriminate].
    intros H. injection H as H.
    destruct (add_words_appends answers 0 (<[ CUSTOM_WORD_FILE := [] ]> csvs))
      as (added & Hlist & Hvalid & Hnd & Hfresh & Hother).
    rewrite H in Hlist, Hother. cbn [fst] in Hlist, Hother.
    rewrite (load_word_list_created csvs _ _ Hfile) in Hlist.
    exists added. split; [exact Hlist|]. split; [exact Hvalid|]. split; [exact Hnd|].
    split.
    + intros w Hw. rewrite <- (load_word_list_created csvs CUSTOM_WORD_FILE _ Hfile).
      apply Hfresh, Hw.
    + intros file Hne. rewrite (Hother file Hne).
      apply load_word_list_created, Hfile.
Qed.


(** X23. On a custom word file that can be read and that, if it exists,
    is complete, a custom list without repetition has none after
    [add_custom_words]. *)
Theorem add_custom_words_no_duplicates (csvs : csv_files) answers csvs' done :
  file_complete env = true ->
  add_custom_words env csvs answers = Some (csvs', done) ->
  NoDup (load_word_list csvs CUSTOM_WORD_FILE) ->
  NoDup (load_word_list csvs' CUSTOM_WORD_FILE).
Proof.
  intros Hcomplete Hrun Hold.
  destruct (add_custom_words_run csvs answers csvs' done Hcomplete Hrun)
    as (added & Hlist & _ & Hnd & Hfresh & _).
  rewrite Hlist. apply NoDup_app. repeat split; [exact Hold | | exact Hnd].
  intros w Hw Hin. exact (Hfresh w Hin Hw).
Qed.

End CustomWords.


Lemma add_custom_words_no_duplicates_witness :
  let answers := ["Tree"; " House "; "Garden"; "house"; "ab"; "done"; "later"] in
  exists csvs',
    add_custom_words example_env example_word_lists answers = Some (csvs', true)
    /\ NoDup (load_word_list example_word_lists CUSTOM_WORD_FILE)
    /\ NoDup (load_word_list csvs' CUSTOM_WORD_FILE).
Proof.
  intros answers.
  destruct (add_custom_words example_env example_word_lists answers)
    as [[csvs' done]|] eqn:Hrun; [|vm_compute in Hrun; discriminate].
  assert (Hdone : done = true).
  { vm_compute in Hrun. injection Hrun as _ <-. reflexivity. }
  subst done.
  assert (Hold : NoDup (load_word_list example_word_lists CUSTOM_WORD_FILE)).
  { apply (bool_decide_unpack _). vm_compute. exact I. }
  exists csvs'. split; [reflexivity|]. split; [exact Hold|].
  exact (add_custom_words_no_duplicates example_env (fun _ => eq_refl)
           example_word_lists answers csvs' true eq_refl Hrun Hold).
Defined.

(** ** From the custom list to a round *)

Section CustomToRound.

Lemma random_choice_index {A : Type} (l : list A) (k : nat) x :
  l !! k = Some x -> random_choice k l = Some x.
Proof.
  intros Hk. unfold random_choice.
  rewrite Nat.mod_small; [exact Hk|]. eapply lookup_lt_Some, Hk.
Qed.

(** The three ranges cover the lengths 4 to 20. *)
Lemma difficulty_for_length (n : nat) :
  (4 <= n <= 20)%nat ->
  exists d, (fst (DIFFICULTY_PARAMS d) <= n <= snd (DIFFICULTY_PARAMS d))%nat.
Proof.
  intros Hn. destruct (le_lt_dec n 5); [exists easy; simpl; lia|].
  destruct (le_lt_dec n 7); [exists medium; simpl; lia|].
  exists hard. simpl. lia.
Qed.

Lemma custom_word_can_be_drawn (csvs : csv_files) w :
  w ∈ load_word_list csvs CUSTOM_WORD_FILE ->
  (4 <= String.length w <= 20)%nat ->
  exists d draw,
    new_game csvs d draw = Some (create_game_state w [] MAX_SCORE INITIAL_TIME).
Proof.
  intros Hin Hlen. destruct (difficulty_for_length _ Hlen) as [d Hd].
  assert (Hcand : w ∈ candidate_words csvs d).
  { apply candidate_words_spec. split; [|exact Hd]. apply elem_of_app. left. exact Hin. }
  apply list_elem_of_lookup_1 in Hcand as [k Hk].
  exists d, k. unfold new_game.
  destruct (candidate_words csvs d) as [|w0 ws] eqn:Hpool; [inversion Hk|].
  now rewrite (random_choice_index _ k w Hk).
Qed.

(** X24. On a custom word file that can be read and that, if it exists,
    is complete, every word that [add_custom_words] has added can come up
    as the word of a new game: there are a difficulty and a draw for which
    [new_game] starts a fresh round on it. *)
Theorem added_word_can_be_drawn (env : word_file_env) (csvs : csv_files)
    answers csvs' done w :
  (forall k, can_read env k = true) ->
  file_complete env = true ->
  add_custom_words env csvs answers = Some (csvs', done) ->
  w ∈ load_word_list csvs' CUSTOM_WORD_FILE ->
  w ∉ load_word_list csvs CUSTOM_WORD_FILE ->
  exists d draw,
    new_game csvs' d draw = Some (create_game_state w [] MAX_SCORE INITIAL_TIME)
    /\ word (create_game_state w [] MAX_SCORE INITIAL_TIME) = w.
Proof.
  intros Hread Hcomplete Hrun Hin Hnew.
  destruct (add_custom_words_run env Hread csvs answers csvs' done Hcomplete Hrun)
    as (added & Hlist & Hvalid & _).
  assert (Hadded : w ∈ added).
  { rewrite Hlist in Hin. apply elem_of_app in Hin as [Hin | Hin];
      [contradiction | exact Hin]. }
  rewrite Forall_forall in Hvalid.
  destruct (Hvalid w Hadded) as (_ & Hlow & Hlen & _).
  destruct (custom_word_can_be_drawn csvs' w) as (d & draw & Hgame).
  - rewrite Hlist. apply elem_of_app. right. exact Hadded.
  - exact Hlen.
  - exists d, draw. split; [exact Hgame | exact Hlow].
Qed.

End CustomToRound.

Lemma added_word_can_be_drawn_witness :
  exists csvs',
    add_custom_words example_env example_word_lists ["House"; "done"]
    = Some (csvs', true)
    /\ "house" ∈ load_word_list csvs' CUSTOM_WORD_FILE
    /\ exists d draw,
         new_game csvs' d draw
         = Some (create_game_state "house" [] MAX_SCORE INITIAL_TIME)
         /\ word (create_game_state "house" [] MAX_SCORE INITIAL_TIME) = "house".
Proof.
  destruct (add_custom_words example_env example_word_lists ["House"; "done"])
    as [[csvs' done]|] eqn:Hrun; [|vm_compute in Hrun; discriminate].
  assert (Hcsvs : csvs' = append_row example_word_lists CUSTOM_WORD_FILE ["house"]
                  /\ done = true).
  { vm_compute in Hrun. injection Hrun as <- <-. split; vm_compute; reflexivity. }
  destruct Hcsvs as [Hcsvs ->].
  assert (Hin : "house" ∈ load_word_list csvs' CUSTOM_WORD_FILE).
  { rewrite Hcsvs. apply (bool_decide_unpack _). vm_compute. exact I. }
  exists csvs'. split; [reflexivity|]. split; [exact Hin|].
  apply (added_word_can_be_drawn example_env example_word_lists ["House"; "done"]
           csvs' true "house" (fun _ => eq_refl) eq_refl Hrun Hin).
  apply (bool_decide_unpack _). vm_compute. exact I.
Defined.

(** ** Files of three lines *)

Section ThreeLines.

Lemma three_line_save_lines w guesses t :
  no_break w = true ->
  Forall (fun g => no_break g = true) guesses ->
  file_lines (three_line_save w guesses t)
  = [ (w +:+ " ") +:+ NL; join "," guesses +:+ NL; str_of_int t +:+ NL ].
Proof.
  intros Hw Hg. unfold file_lines, three_line_save.
  assert (H1 : no_break (w +:+ " ") = true)
    by (rewrite no_break_append, Hw; reflexivity).
  pose proof (no_break_join guesses Hg) as H2.
  pose proof (no_break_str_of_int t) as H3.
  rewrite !universal_newlines_line by assumption.
  rewrite !split_lines_line by assumption.
  reflexivity.
Qed.

Lemma written_by_save_never_loads (fs : files) filename content :
  fs !! with_save_extension filename = Some content ->
  written_by_save content ->
  load_game_state fs filename = None.
Proof.
  intros Hfile (w & guesses & t & -> & Hw & Hg). unfold load_game_state.
  rewrite Hfile, (three_line_save_lines w guesses t Hw Hg). reflexivity.
Qed.

(** The text [save_game_state] writes is of that form. *)
Lemma save_text_written_by_save s :
  no_break (word s) = true ->
  set_Forall (fun g => no_break g = true) (guessed_letters s) ->
  written_by_save (save_text s).
Proof.
  intros Hw Hg.
  exists (word s), (elements (guessed_letters s)), (time_left s).
  split; [apply save_text_shape|]. split; [exact Hw|].
  apply Forall_forall. intros g Hin. apply Hg, elem_of_elements, Hin.
Qed.

End ThreeLines.

(** ** The load menu *)

Section LoadMenu.

Context (fs : files) (csvs : csv_files).



Lemma new_game_asked_result answers draw state rest :
  new_game_asked csvs answers draw = Answered state rest ->
  exists d, state = new_game csvs d draw.
Proof.
  unfold new_game_asked.
  destruct (get_valid_input is_difficulty answers) as [name rest'| |]; try discriminate.
  destruct (difficulty_of_name name) as [d|]; [|discriminate].
  intros H. injection H as <- _. eauto.
Qed.


(** X26. An answer to the prompt for the file that passes [isdigit] but that
    [int] cannot convert, such as a superscript digit, makes the validator
    raise: the prompt is not repeated. *)
Theorem choice_prompt_raises answers a rest draw :
  get_valid_input yes_or_no answers = Answered "y" (a :: rest) ->
  list_save_files fs <> [] ->
  str_isdigit (lower (strip a)) = true ->
  int_of_str (lower (strip a)) = None ->
  hangman_start fs csvs answers draw = Raised.
Proof.
  intros Hyes Hsome Hdigit Hint. unfold hangman_start. rewrite Hyes.
  cbn [String.eqb Ascii.eqb Bool.eqb].
  destruct (list_save_files fs) as [|file files']; [congruence|].
  cbn [get_valid_input]. unfold valid_choice. now rewrite Hdigit, Hint.
Qed.

(** X27. When every save file of the directory is a file of three lines
    as [save_game_state] writes it, from a word and guesses that hold no
    line break, no saved game is ever resumed: every round that the menu
    starts is a new game. *)
Theorem saved_games_never_resume answers draw s rest :
  (forall file, file ∈ list_save_files fs ->
     exists content, fs !! file = Some content /\ written_by_save content) ->
  hangman_start fs csvs answers draw = Answered (Play s) rest ->
  exists d, new_game csvs d draw = Some s.
Proof.
  intros Hsaved. unfold hangman_start.
  assert (Hnew : forall answers' rest',
            match new_game_asked csvs answers' draw with
            | Answered state rest3 => Answered (start_of state) rest3
            | Raised => Raised
            | OutOfInput => OutOfInput
            end = Answered (Play s) rest' ->
            exists d, new_game csvs d draw = Some s).
  { intros answers' rest'.
    destruct (new_game_asked csvs answers' draw) as [state rest3| |] eqn:Hasked;
      try discriminate.
    apply new_game_asked_result in Hasked as [d ->].
    destruct (new_game csvs d draw) as [s'|] eqn:Hgame; [|discriminate].
    intros H. injection H as <- _. eauto. }
  destruct (get_valid_input yes_or_no answers) as [yn rest0| |]; try discriminate.
  destruct (String.eqb yn "y"); [|apply Hnew].
  set (before := match list_save_files fs with
                 | [] => _
                 | _ :: _ => _
                 end).
  destruct before as [_ rest1| |]; try discriminate.
  destruct (get_valid_input _ rest1) as [choice rest2| |]; try discriminate.
  destruct (int_of_str choice) as [[|c|c]|]; try discriminate.
  - destruct (list_save_files fs !! _) as [filename|] eqn:Hfile; [|discriminate].
    apply list_elem_of_lookup_2 in Hfile.
    destruct (Hsaved filename Hfile) as (content & Hcontent & Hwritten).
    apply list_save_files_elem in Hfile as [_ Hext].
    rewrite (written_by_save_never_loads fs filename content);
      [apply Hnew | | exact Hwritten].
    now rewrite (with_save_extension_fixed filename Hext).
  - destruct (list_save_files fs !! _) as [filename|] eqn:Hfile; [|discriminate].
    apply list_elem_of_lookup_2 in Hfile.
    destruct (Hsaved filename Hfile) as (content & Hcontent & Hwritten).
    apply list_save_files_elem in Hfile as [_ Hext].
    rewrite (written_by_save_never_loads fs filename content);
      [apply Hnew | | exact Hwritten].
    now rewrite (with_save_extension_fixed filename Hext).
Qed.

End LoadMenu.


Lemma choice_prompt_raises_witness :
  str_isdigit superscript_two = true
  /\ int_of_str superscript_two = None
  /\ hangman_start one_saved_game example_word_lists ["y"; superscript_two] 0 = Raised.
Proof.
  split; [reflexivity|]. split; [reflexivity|].
  apply (choice_prompt_raises one_saved_game example_word_lists
           ["y"; superscript_two] superscript_two [] 0).
  - reflexivity.
  - vm_compute. discriminate.
  - reflexivity.
  - reflexivity.
Defined.

Lemma saved_games_never_resume_witness :
  hangman_start one_saved_game example_word_lists ["y"; "1"; "easy"] 0
  = Answered (Play (fresh_round "tree")) []
  /\ exists d, new_game example_word_lists d 0 = Some (fresh_round "tree").
Proof.
  assert (Hrun : hangman_start one_saved_game example_word_lists ["y"; "1"; "easy"] 0
                 = Answered (Play (fresh_round "tree")) [])
    by (vm_compute; reflexivity).
  split; [exact Hrun|].
  apply (saved_games_never_resume one_saved_game example_word_lists
           ["y"; "1"; "easy"] 0 (fresh_round "tree") []); [|exact Hrun].
  intros file Hfile.
  assert (Hlist : list_save_files one_saved_game = ["slot.save"])
    by (vm_compute; reflexivity).
  rewrite Hlist in Hfile. apply list_elem_of_singleton in Hfile as ->.
  exists (save_text saved_example). split; [reflexivity|].
  exists "cat", ["c"], 25. split; [reflexivity|]. split; [reflexivity|].
  repeat constructor.
Defined.

(** ** Word lists, scoring and saving again *)

Section Remaining.

(** X28. [load_word_list] takes the first cell of each row whose trimmed first
    cell is alphabetic, lowered, and nothing else: empty rows, other cells
    and a missing file contribute nothing.  Lowering a word it returns
    changes nothing. *)
Theorem load_word_list_words (csvs : csv_files) file w :
  (w ∈ load_word_list csvs file
   <-> exists rows cell others,
         csvs !! file = Some rows
         /\ (cell :: others) ∈ rows
         /\ isalpha (strip cell) = true
         /\ w = lower cell)
  /\ (w ∈ load_word_list csvs file -> lower w = w).
Proof.
  split; [|apply load_word_list_lower].
  unfold load_word_list. destruct (csvs !! file) as [rows|].
  - rewrite list_elem_of_In, in_flat_map. split.
    + intros (row & Hrow & Hw). destruct row as [|cell others]; [destruct Hw|].
      destruct (isalpha (strip cell)) eqn:Halpha; [|destruct Hw].
      destruct Hw as [<- | []]. exists rows, cell, others.
      repeat split; [apply list_elem_of_In, Hrow | exact Halpha].
    + intros (rows' & cell & others & Hrows & Hrow & Halpha & ->).
      injection Hrows as <-. exists (cell :: others).
      split; [apply list_elem_of_In, Hrow|]. rewrite Halpha. left. reflexivity.
  - split; [intros H; inversion H|]. intros (rows & _ & _ & H & _). discriminate.
Qed.

(** X29. Every guess that is recorded costs ten points, right or wrong; the
    counter [incorrect_guesses] goes up by one when the guess is part of
    the word and down by one when it is not. *)
Theorem recorded_guess_scoring (fs : files) s i :
  guess_of i <> "save" ->
  0 < time_left s - int_of_float (elapsed i) ->
  guess_of i <> word s ->
  single_letter (guess_of i) && is_guessed s (guess_of i) = false ->
  score (st (game_turn fs s i)) = score s - 10
  /\ incorrect_guesses (st (game_turn fs s i))
     = incorrect_guesses s + (if contains (word s) (guess_of i) then 1 else -1)
  /\ guessed_letters (st (game_turn fs s i)) = {[ guess_of i ]} ∪ guessed_letters s.
Proof. unfold guess_of. apply game_turn_charged_counters. Qed.

Lemma sanitize_c_idem c : sanitize_c (sanitize_c c) = sanitize_c c.
Proof. destruct c as [[] [] [] [] [] [] [] []]; vm_compute; reflexivity. Qed.

Lemma sanitize_idem f : sanitize (sanitize f) = sanitize f.
Proof.
  induction f as [|c f IH]; [reflexivity|].
  cbn [sanitize]. now rewrite sanitize_c_idem, IH.
Qed.

Lemma saved_name_stable f :
  with_save_extension (sanitize (with_save_extension (sanitize f)))
  = with_save_extension (sanitize f).
Proof.
  assert (Hname : sanitize (with_save_extension (sanitize f))
                  = with_save_extension (sanitize f)).
  { unfold with_save_extension. destruct (endswith (sanitize f) ".save");
      [apply sanitize_idem|].
    rewrite sanitize_append, sanitize_idem. reflexivity. }
  rewrite Hname. apply with_save_extension_fixed, with_save_extension_ends.
Qed.

(** X30. Saving again under the name a game is listed by replaces that file
    and makes no other: the directory is as if the second state had been
    saved in the first place. *)
Theorem save_again_replaces (fs : files) f s s' :
  save_game_state (save_game_state fs f s) (with_save_extension (sanitize f)) s'
  = save_game_state fs f s'.
Proof.
  unfold save_game_state. rewrite saved_name_stable. apply insert_insert_eq.
Qed.

End Remaining.

Lemma load_word_list_words_witness :
  " cat " ∈ load_word_list example_word_lists CUSTOM_WORD_FILE
  /\ lower " cat " = " cat ".
Proof.
  assert (Hin : " cat " ∈ load_word_list example_word_lists CUSTOM_WORD_FILE).
  { apply (load_word_list_words example_word_lists CUSTOM_WORD_FILE " cat ").
    exists [["Tree"]; [" cat "]; ["a b"]; []], " cat ", [].
    repeat split. right. left. }
  split; [exact Hin|].
  exact (proj2 (load_word_list_words example_word_lists CUSTOM_WORD_FILE " cat ") Hin).
Defined.

Lemma recorded_guess_scoring_witness :
  let r := game_turn ∅ (fresh_round "cat") (guess_after " CA " 3) in
  score (st r) = 90
  /\ incorrect_guesses (st r) = 1
  /\ guessed_letters (st r) = {[ "ca" ]} ∪ ∅.
Proof.
  intros r.
  apply (recorded_guess_scoring ∅ (fresh_round "cat") (guess_after " CA " 3));
    first [discriminate | reflexivity].
Defined.

(** The two cases of C9 on the example lists: no word of 8 to 20
    characters is listed, so no hard round starts; an easy round starts on
    a listed word of 4 or 5 characters. *)
Lemma new_game_word_in_range_witness :
  ((forall w,
      ~ (w ∈ (load_word_list example_word_lists CUSTOM_WORD_FILE
              ++ load_word_list example_word_lists "hard_words.csv")%list
         /\ (8 <= String.length w <= 20)%nat))
   /\ new_game example_word_lists hard 0 = None)
  /\ exists w,
       (w ∈ (load_word_list example_word_lists CUSTOM_WORD_FILE
             ++ load_word_list example_word_lists "easy_words.csv")%list
        /\ (4 <= String.length w <= 5)%nat)
       /\ new_game example_word_lists easy 1
          = Some (create_game_state w [] MAX_SCORE INITIAL_TIME)
       /\ word (create_game_state w [] MAX_SCORE INITIAL_TIME) = w.
Proof.
  split.
  - destruct (new_game_word_in_range example_word_lists hard 0) as [H | (w & _ & H & _)];
      [exact H | vm_compute in H; discriminate].
  - destruct (new_game_word_in_range example_word_lists easy 1) as [[_ H] | H];
      [vm_compute in H; discriminate | exact H].
Defined.
